(** * libdatabase: the local mirror of the online IP database

    A shallow embedding of [libdatabase.py]: the page scraping of
    [IPDB_to_localDB], the [servers] table of [local.db] behind
    [connect_to_db], and the whitelisted accessors [get_IP_attributes],
    [set_IP_attributes] and [get_IP_list].

    Python values are modelled as follows.
    - [str] is [string]; a character is one code point below 256.
    - a list is a [list]; indexing out of range raises [IndexError].
    - the parsed page is a tree of tags and strings, as BeautifulSoup has it.
    - the [servers] table is the list of its rows in insertion order; a
      database file without the table is the empty list
      ([CREATE TABLE if not exists] makes it so on every connection).
    - every function runs in a small monad that threads the table, records
      the observable events (page fetches, SQL statements, prints) and
      carries Python exceptions. *)

From Stdlib Require Import String Ascii List Arith Bool ZArith Lia DecimalString.
Import ListNotations.
Local Open Scope string_scope.
Local Open Scope list_scope.

Set Implicit Arguments.
Local Set Warnings "-register-all".

(* ===================================================================== *)
(** ** Python strings and lists                                           *)
(* ===================================================================== *)

Module Py.

(** [needle in hay] on strings. *)
Fixpoint contains (needle hay : string) : bool :=
  if String.prefix needle hay then true
  else match hay with
       | EmptyString => false
       | String _ hay' => contains needle hay'
       end.

(** [s.split(sep)] for a one-character separator. *)
Fixpoint split_on (sep : ascii) (s : string) : list string :=
  match s with
  | EmptyString => [EmptyString]
  | String c s' =>
      if Ascii.eqb c sep then EmptyString :: split_on sep s'
      else match split_on sep s' with
           | w :: ws => String c w :: ws
           | [] => [String c EmptyString]
           end
  end.

(** [str.isspace] on one character below 256: tab to carriage return,
    the four separators 28-31, space, NEL (133) and NBSP (160). *)
Definition isspace (c : ascii) : bool :=
  let n := nat_of_ascii c in
  (((9 <=? n) && (n <=? 13)) || ((28 <=? n) && (n <=? 32))
   || (n =? 133) || (n =? 160))%nat.

(** [s.split()]: maximal runs of characters that are not whitespace. *)
Fixpoint split_ws (s : string) : list string :=
  match s with
  | EmptyString => []
  | String c s' =>
      if isspace c then split_ws s'
      else match s' with
           | EmptyString => [String c EmptyString]
           | String c' _ =>
               if isspace c' then String c EmptyString :: split_ws s'
               else match split_ws s' with
                    | w :: ws => String c w :: ws
                    | [] => [String c EmptyString]
                    end
           end
  end.

(** [sep.join(l)]. *)
Definition join (sep : string) (l : list string) : string :=
  String.concat sep l.

(** [s[n:]]. *)
Fixpoint drop (n : nat) (s : string) : string :=
  match n, s with
  | O, _ => s
  | S _, EmptyString => EmptyString
  | S n', String _ s' => drop n' s'
  end.

(** [s.replace("'", "")]. *)
Fixpoint remove_quotes (s : string) : string :=
  match s with
  | EmptyString => EmptyString
  | String c s' =>
      if Ascii.eqb c "'"%char then remove_quotes s'
      else String c (remove_quotes s')
  end.

(** [str(n)] for a natural number. *)
Definition str_nat (n : nat) : string :=
  NilZero.string_of_uint (Nat.to_uint n).

(** [l[::2]]. *)
Fixpoint every_second {A : Type} (l : list A) : list A :=
  match l with
  | [] => []
  | x :: l' => x :: match l' with
                    | [] => []
                    | _ :: l'' => every_second l''
                    end
  end.

(** [l[1:]] and [l[:-1]]. *)
Definition from_1 {A : Type} (l : list A) : list A := tl l.
Definition upto_last {A : Type} (l : list A) : list A := removelast l.

(** [x in l] for a list of strings. *)
Definition mem (x : string) (l : list string) : bool :=
  existsb (String.eqb x) l.

(** The values callers pass to [set_IP_attributes], and [str] on them.
    (The interpreter's optional bound on the digits of an integer it
    converts is left out.) *)
Inductive value :=
| Str (s : string)
| Int (z : Z)
| Bool (b : bool).

Definition str (v : value) : string :=
  match v with
  | Str s => s
  | Int z => NilZero.string_of_int (Z.to_int z)
  | Bool true => "True"
  | Bool false => "False"
  end.

End Py.

Arguments Py.mem : simpl never.

(** Exceptions the modelled code can raise. [FetchError] stands for
    whatever [get_page] raises when the page cannot be retrieved. *)
Inductive exn :=
| IndexError
| KeyError
| IntegrityError
| OperationalError
| ProgrammingError
| FetchError.

(** The result of a pure Python expression that may raise. *)
Inductive res (A : Type) :=
| Val (a : A)
| Exn (e : exn).
Arguments Val {A} a.
Arguments Exn {A} e.

Definition res_bind {A B : Type} (r : res A) (k : A -> res B) : res B :=
  match r with
  | Val a => k a
  | Exn e => Exn e
  end.

Declare Scope res_scope.
Delimit Scope res_scope with res.
Notation "x <- r ;; k" := (res_bind r (fun x => k))
  (at level 61, r at next level, right associativity) : res_scope.

(** [l[i]] for a non-negative constant [i]. *)
Definition index {A : Type} (l : list A) (i : nat) : res A :=
  match nth_error l i with
  | Some x => Val x
  | None => Exn IndexError
  end.

(* ===================================================================== *)
(** ** The parsed page                                                    *)
(* ===================================================================== *)

(** A BeautifulSoup tree: tags with attributes and children, and the
    strings between them. The page object itself is the root tag. *)
Inductive node :=
| Tag (tag_name : string) (attrs : list (string * string)) (children : list node)
| NavigableString (s : string).

(** The tags named [nm] among [n] and its descendants, in document order. *)
Fixpoint find_all_self (nm : string) (n : node) : list node :=
  match n with
  | Tag t _ cs =>
      (if String.eqb t nm then [n] else []) ++ flat_map (find_all_self nm) cs
  | NavigableString _ => []
  end.

(** [n.find_all(nm)]: the descendants of [n] named [nm]. *)
Definition find_all (nm : string) (n : node) : list node :=
  match n with
  | Tag _ _ cs => flat_map (find_all_self nm) cs
  | NavigableString _ => []
  end.

(** [n.get_text()], which is also [n.text]. *)
Fixpoint get_text (n : node) : string :=
  match n with
  | Tag _ _ cs => String.concat "" (map get_text cs)
  | NavigableString s => s
  end.

(** [n[key]]: the attribute, or [KeyError]. *)
Fixpoint lookup_attr (key : string) (l : list (string * string)) : res string :=
  match l with
  | [] => Exn KeyError
  | (k, v) :: l' => if String.eqb k key then Val v else lookup_attr key l'
  end.

Definition get_attr (n : node) (key : string) : res string :=
  match n with
  | Tag _ a _ => lookup_attr key a
  | NavigableString _ => Exn KeyError
  end.

(* ===================================================================== *)
(** ** Locating the rows of a page (lines 88-92)                          *)
(* ===================================================================== *)

(** [rows[::2][1:][:-1]]. *)
Definition candidate_rows (rows : list node) : list node :=
  Py.upto_last (Py.from_1 (Py.every_second rows)).

(** [page.find_all("table")[16].find_all("tr")[::2][1:][:-1]]. *)
Definition connected_trs (page : node) : res (list node) :=
  (t16 <- index (find_all "table" page) 16 ;;
   Val (candidate_rows (find_all "tr" t16)))%res.

(** [page.find_all("table")[9].find_all("table")[3].find_all("tr")[::2][1:][:-1]]. *)
Definition plain_trs (page : node) : res (list node) :=
  (t9 <- index (find_all "table" page) 9 ;;
   t3 <- index (find_all "table" t9) 3 ;;
   Val (candidate_rows (find_all "tr" t3)))%res.

(** The [if]/[else] of lines 89-92. *)
Definition page_trs (page : node) : res (list node) :=
  if Py.contains "Remote host web service" (get_text page)
  then connected_trs page
  else plain_trs page.

(* ===================================================================== *)
(** ** Reading one row (lines 101-104)                                    *)
(* ===================================================================== *)

(** The four values read from a [tr]. *)
Record scraped := {
  sc_ipAddress : string;
  sc_name : string;
  sc_admin : bool;
  sc_owned : bool
}.

Definition scrape_tr (tr : node) : res scraped :=
  (let tds := find_all "td" tr in
   td0 <- index tds 0 ;;
   td00 <- index (find_all "td" td0) 0 ;;
   a0 <- index (find_all "a" td00) 0 ;;
   href <- get_attr a0 "href" ;;
   part <- index (Py.split_on "&"%char href) 2 ;;
   let ipAddress := Py.drop 7 part in
   td5 <- index tds 5 ;;
   let name := Py.join " " (Py.split_ws (get_text td5)) in
   td6 <- index tds 6 ;;
   let admin := String.eqb (get_text td6) "Yes" in
   td7 <- index tds 7 ;;
   let owned := String.eqb (get_text td7) "Gateway" in
   Val {| sc_ipAddress := ipAddress; sc_name := name;
          sc_admin := admin; sc_owned := owned |})%res.

(* ===================================================================== *)
(** ** The [servers] table (line 45)                                      *)
(* ===================================================================== *)

(** What a [BOOLEAN] column holds. [sqlite3] binds a Python [bool] as the
    integer 1 or 0 ([Bound]); a quoted literal written by
    [set_IP_attributes] is stored as SQLite's NUMERIC affinity converts
    it, which is kept symbolic here ([Literal]). *)
Inductive flag :=
| Bound (b : bool)
| Literal (s : string).

(** One row, a field per column of the [CREATE TABLE] statement. *)
Record server := {
  ipAddress : string;
  name : string;
  type : string;
  page : string;
  admin : flag;
  minimum_protect : string;
  owned : flag;
  running : string;
  files : string;
  cpu : string;
  memory : string;
  bandwidth : string;
  lastlog : string;
  lastupdated : string
}.

(** The rows of [servers] in insertion order. *)
Definition table := list server.

Definition keys (t : table) : list string := map ipAddress t.

Definition has_key (ip : string) (t : table) : bool :=
  existsb (fun r => String.eqb (ipAddress r) ip) t.

(** A value as [fetchall] hands it back. *)
Inductive cell :=
| Text (s : string)
| Flag (f : flag).

Definition VALID_COLUMN_NAMES : list string :=
  ["ipAddress"; "name"; "type"; "page"; "admin"; "minimum_protect"; "owned";
   "running"; "files"; "cpu"; "memory"; "bandwidth"; "lastlog"; "lastupdated"].

(** The columns the table was created with. *)
Definition table_columns : list string :=
  ["ipAddress"; "name"; "type"; "page"; "admin"; "minimum_protect"; "owned";
   "running"; "files"; "cpu"; "memory"; "bandwidth"; "lastlog"; "lastupdated"].

Definition get_column (c : string) (r : server) : cell :=
  if String.eqb c "ipAddress" then Text (ipAddress r)
  else if String.eqb c "name" then Text (name r)
  else if String.eqb c "type" then Text (type r)
  else if String.eqb c "page" then Text (page r)
  else if String.eqb c "admin" then Flag (admin r)
  else if String.eqb c "minimum_protect" then Text (minimum_protect r)
  else if String.eqb c "owned" then Flag (owned r)
  else if String.eqb c "running" then Text (running r)
  else if String.eqb c "files" then Text (files r)
  else if String.eqb c "cpu" then Text (cpu r)
  else if String.eqb c "memory" then Text (memory r)
  else if String.eqb c "bandwidth" then Text (bandwidth r)
  else if String.eqb c "lastlog" then Text (lastlog r)
  else Text (lastupdated r).

(** The five columns the sync writes, on one row. *)
Definition set_synced (nm ty pg : string) (ad ow : flag) (r : server) : server :=
  {| ipAddress := ipAddress r;
     name := nm; type := ty; page := pg; admin := ad;
     minimum_protect := minimum_protect r;
     owned := ow;
     running := running r; files := files r; cpu := cpu r;
     memory := memory r; bandwidth := bandwidth r;
     lastlog := lastlog r; lastupdated := lastupdated r |}.

(** [SET c = 'v'] on one row, for a column of the table. *)
Definition set_column (c v : string) (r : server) : server :=
  {| ipAddress := if String.eqb c "ipAddress" then v else ipAddress r;
     name := if String.eqb c "name" then v else name r;
     type := if String.eqb c "type" then v else type r;
     page := if String.eqb c "page" then v else page r;
     admin := if String.eqb c "admin" then Literal v else admin r;
     minimum_protect :=
       if String.eqb c "minimum_protect" then v else minimum_protect r;
     owned := if String.eqb c "owned" then Literal v else owned r;
     running := if String.eqb c "running" then v else running r;
     files := if String.eqb c "files" then v else files r;
     cpu := if String.eqb c "cpu" then v else cpu r;
     memory := if String.eqb c "memory" then v else memory r;
     bandwidth := if String.eqb c "bandwidth" then v else bandwidth r;
     lastlog := if String.eqb c "lastlog" then v else lastlog r;
     lastupdated := if String.eqb c "lastupdated" then v else lastupdated r |}.

(** The row of the [INSERT] statement of line 116. *)
Definition new_server (ip nm ty pg : string) (ad ow : bool) : server :=
  {| ipAddress := ip; name := nm; type := ty; page := pg; admin := Bound ad;
     minimum_protect := ""; owned := Bound ow;
     running := ""; files := ""; cpu := ""; memory := ""; bandwidth := "";
     lastlog := ""; lastupdated := "N/A" |}.

(** The eight columns no statement of the sync names. *)
Definition mutableFields (r : server)
  : string * string * string * string * string * string * string * string :=
  (minimum_protect r, running r, files r, cpu r, memory r, bandwidth r,
   lastlog r, lastupdated r).

(* ===================================================================== *)
(** ** The SQL statements of the module and what SQLite does with them    *)
(* ===================================================================== *)

Inductive stmt :=
(** line 111: [SELECT name FROM servers WHERE ipAddress = ?] *)
| SelectName (ip : string)
(** line 113: [UPDATE servers SET name = ?, type = ?, page = ?, admin = ?,
    owned = ? WHERE ipAddress = ?] *)
| UpdateSynced (nm ty pg : string) (ad ow : bool) (ip : string)
(** line 116: [INSERT INTO servers VALUES (?, ?, ?, ?, ?, '', ?, '', '',
    '', '', '', '', 'N/A')] *)
| InsertServer (ip nm ty pg : string) (ad ow : bool)
(** line 155: [SELECT c1,...,cn FROM servers WHERE ipAddress = ?] *)
| SelectColumns (cols : list string) (ip : string)
(** line 203: [UPDATE servers SET c1 = 'v1', ..., cn = 'vn' WHERE
    ipAddress = ?] *)
| UpdateColumns (assigns : list (string * string)) (ip : string)
(** line 225: [SELECT ipAddress FROM servers] *)
| SelectIps.

Definition matches (ip : string) (r : server) : bool :=
  String.eqb (ipAddress r) ip.

(** [UPDATE ... WHERE ipAddress = ip]: every matching row is rewritten. *)
Definition update_where (ip : string) (f : server -> server) (t : table) : table :=
  map (fun r => if matches ip r then f r else r) t.

(** The [PRIMARY KEY] constraint, checked on the keys of a table. *)
Fixpoint distinct (l : list string) : bool :=
  match l with
  | [] => true
  | x :: l' => negb (Py.mem x l') && distinct l'
  end.

(** Several assignments to one column: SQLite keeps the rightmost. *)
Definition assign_all (assigns : list (string * string)) (r : server) : server :=
  fold_left (fun r cv => set_column (fst cv) (snd cv) r) assigns r.

(** The text of a statement may not hold the character of code 0:
    [sqlite3] refuses it with [ProgrammingError] before SQLite sees it. *)
Fixpoint has_nul (s : string) : bool :=
  match s with
  | EmptyString => false
  | String c s' => Ascii.eqb c Ascii.zero || has_nul s'
  end.

(** SQLite's bound on the columns of a result set and on the terms of a
    [SET] list (its default, which [sqlite3] does not change). *)
Definition SQLITE_MAX_COLUMN : nat := 2000.

(** The order of the primary-key index: text compared code by code, a
    prefix before its extensions. *)
Fixpoint insert_key (k : string) (l : list string) : list string :=
  match l with
  | [] => [k]
  | x :: l' => if String.leb k x then k :: l else x :: insert_key k l'
  end.

Definition sort_keys (l : list string) : list string :=
  fold_right insert_key [] l.

Fixpoint ascending (l : list string) : bool :=
  match l with
  | x :: ((y :: _) as l') => String.leb x y && ascending l'
  | _ => true
  end.

(** [cursor.execute(q, params).fetchall()] on table [t]: the rows handed
    back and the table afterwards (the connection is in autocommit mode,
    [isolation_level=None]). A statement that fails leaves the table as it
    was.
    - The statements of lines 155 and 203 carry column names and, for the
      [UPDATE], values in their text; a character of code 0 in that text
      raises [ProgrammingError].
    - An empty column list or an empty [SET] list is not SQL: the text
      composed is [SELECT  FROM servers ...] or [UPDATE servers SET
      WHERE ...], and preparing it raises [OperationalError]; so do more
      than [SQLITE_MAX_COLUMN] columns or terms, and a column the table
      does not have.
    - [INSERT] of a key that is present violates the primary key.
    - [UPDATE] checks the primary key only if it rewrote a row.
    - [SELECT ipAddress FROM servers] is answered from the index of the
      primary key, in the order of the keys.
    The values of lines 111-116 and the [IP] of every [WHERE] are bound
    parameters and may hold any character. Limits of the engine on the
    size of a value or of a statement are left out. *)
Definition execute (q : stmt) (t : table) : res (list (list cell)) * table :=
  match q with
  | SelectName ip =>
      (Val (map (fun r => [Text (name r)]) (filter (matches ip) t)), t)
  | UpdateSynced nm ty pg ad ow ip =>
      (Val [], update_where ip (set_synced nm ty pg (Bound ad) (Bound ow)) t)
  | InsertServer ip nm ty pg ad ow =>
      if has_key ip t then (Exn IntegrityError, t)
      else (Val [], t ++ [new_server ip nm ty pg ad ow])
  | SelectColumns cols ip =>
      if existsb has_nul cols then (Exn ProgrammingError, t)
      else
        match cols with
        | [] => (Exn OperationalError, t)
        | _ :: _ =>
            if negb (length cols <=? SQLITE_MAX_COLUMN)%nat
            then (Exn OperationalError, t)
            else if forallb (fun c => Py.mem c table_columns) cols
            then (Val (map (fun r => map (fun c => get_column c r) cols)
                           (filter (matches ip) t)), t)
            else (Exn OperationalError, t)
        end
  | UpdateColumns assigns ip =>
      if existsb (fun cv => has_nul (fst cv) || has_nul (snd cv)) assigns
      then (Exn ProgrammingError, t)
      else
        match assigns with
        | [] => (Exn OperationalError, t)
        | _ :: _ =>
            if negb (length assigns <=? SQLITE_MAX_COLUMN)%nat
            then (Exn OperationalError, t)
            else if forallb (fun cv => Py.mem (fst cv) table_columns) assigns
            then
              if has_key ip t then
                let t' := update_where ip (assign_all assigns) t in
                if distinct (keys t') then (Val [], t')
                else (Exn IntegrityError, t)
              else (Val [], t)
            else (Exn OperationalError, t)
        end
  | SelectIps =>
      (Val (map (fun k => [Text k]) (sort_keys (keys t))), t)
  end.

(* ===================================================================== *)
(** ** Running Python: table, events, exceptions                          *)
(* ===================================================================== *)

(** What a run does that can be observed from outside. *)
Inductive event :=
| EvConnect                (* connect_to_db() *)
| EvClose                  (* conn.close() *)
| EvFetch (url : string)   (* get_page(url) *)
| EvExecute (q : stmt)     (* cursor.execute(...) *)
| EvPrint (msg : string).  (* print(msg) *)

(** How a run ends: it returns, it raises, or the model's loop bound is
    reached while the Python loop would go on. *)
Inductive outcome (A : Type) :=
| Ok (a : A)
| Raised (e : exn)
| OutOfFuel.
Arguments Ok {A} a.
Arguments Raised {A} e.
Arguments OutOfFuel {A}.

Record run (A : Type) := Run {
  out : outcome A;
  tbl : table;
  evs : list event
}.

Definition M (A : Type) : Type := table -> run A.

Definition ret {A : Type} (a : A) : M A :=
  fun t => Run (Ok a) t [].

Definition bind {A B : Type} (m : M A) (k : A -> M B) : M B :=
  fun t =>
    let r := m t in
    match out r with
    | Ok a => let r' := k a (tbl r) in Run (out r') (tbl r') (evs r ++ evs r')
    | Raised e => Run (Raised e) (tbl r) (evs r)
    | OutOfFuel => Run OutOfFuel (tbl r) (evs r)
    end.

Declare Scope py_scope.
Delimit Scope py_scope with py.
Notation "x <- m ;; k" := (bind m (fun x => k))
  (at level 61, m at next level, right associativity) : py_scope.
Notation "m ;; k" := (bind m (fun _ => k))
  (at level 61, right associativity) : py_scope.

Definition emit (e : event) : M unit :=
  fun t => Run (Ok tt) t [e].

Definition raise {A : Type} (e : exn) : M A :=
  fun t => Run (Raised e) t [].

Definition out_of_fuel {A : Type} : M A :=
  fun t => Run OutOfFuel t [].

(** A pure expression: its value, or its exception. *)
Definition eval {A : Type} (r : res A) : M A :=
  match r with
  | Val a => ret a
  | Exn e => raise e
  end.

(** [cursor.execute(q).fetchall()]. *)
Definition sql (q : stmt) : M (list (list cell)) :=
  fun t =>
    match execute q t with
    | (Val rows, t') => Run (Ok rows) t' [EvExecute q]
    | (Exn e, t') => Run (Raised e) t' [EvExecute q]
    end.

Definition print (msg : string) : M unit := emit (EvPrint msg).

(** [for x in l: body x]. *)
Fixpoint for_each {A : Type} (l : list A) (body : A -> M unit) : M unit :=
  match l with
  | [] => ret tt
  | x :: l' => (body x ;; for_each l' body)%py
  end.

(** Lines 40-47. The table exists afterwards; with the table as the list
    of its rows, that changes nothing. *)
Definition connect_to_db : M unit := emit EvConnect.

Definition close : M unit := emit EvClose.

(* ===================================================================== *)
(** ** [IPDB_to_localDB] (lines 64-121)                                   *)
(* ===================================================================== *)

(** Lines 74-79. *)
Definition server_type_of (ext : string) : string :=
  if String.eqb ext "pub" then "Public"
  else if String.eqb ext "priv" then "Private"
  else "Secret".

(** The argument of [get_page] on line 86. *)
Definition page_url (ext : string) (counter : nat) : string :=
  ("index.php?action=ip_db&a2=" ++ ext ++ "&_o=" ++ Py.str_nat (counter * 20))%string.

(** Line 107: [(ipAddress != IP) and (IP != "none")]. *)
Definition not_wanted (ip IP : string) : bool :=
  negb (String.eqb ip IP) && negb (String.eqb IP "none").

(** Lines 111-116 for the values read from one row. *)
Definition upsert (sc : scraped) (server_type : string) (counter : nat) : M unit :=
  (found <- sql (SelectName (sc_ipAddress sc)) ;;
   if negb (length found =? 0)%nat
   then
     sql (UpdateSynced (sc_name sc) server_type (Py.str_nat counter)
            (sc_admin sc) (sc_owned sc) (sc_ipAddress sc)) ;;
     ret tt
   else
     sql (InsertServer (sc_ipAddress sc) (sc_name sc) server_type
            (Py.str_nat counter) (sc_admin sc) (sc_owned sc)) ;;
     ret tt)%py.

(** Lines 100-116: the body of [for tr in trs]. *)
Definition sync_tr (IP server_type : string) (counter : nat) (tr : node) : M unit :=
  (sc <- eval (scrape_tr tr) ;;
   if not_wanted (sc_ipAddress sc) IP then ret tt
   else upsert sc server_type counter)%py.

Section Sync.

(** [libbasic.get_page]: the page behind a query string, or the
    exception it raises. The module is not part of this file. *)
Variable get_page : string -> res node.

Definition fetch (url : string) : M node :=
  (emit (EvFetch url) ;; eval (get_page url))%py.

(** Lines 85-119: [while moreIPs], at most [fuel] iterations. *)
Fixpoint sync_pages (fuel : nat) (IP ext server_type : string) (counter : nat)
  : M unit :=
  match fuel with
  | O => out_of_fuel
  | S fuel' =>
      (pg <- fetch (page_url ext counter) ;;
       trs <- eval (page_trs pg) ;;
       let moreIPs := negb (length trs =? 0)%nat in
       for_each trs (sync_tr IP server_type counter) ;;
       if moreIPs then sync_pages fuel' IP ext server_type (S counter)
       else ret tt)%py
  end.

(** Lines 71-119: the body of [for ext in exts]. *)
Definition sync_ext (fuel : nat) (IP ext : string) : M unit :=
  sync_pages fuel IP ext (server_type_of ext) 0.

Definition exts : list string := ["pub"; "priv"; "sec"].

Definition IPDB_to_localDB (fuel : nat) (IP : string) : M unit :=
  (connect_to_db ;;
   for_each exts (sync_ext fuel IP) ;;
   close)%py.

End Sync.

(* ===================================================================== *)
(** ** [get_IP_attributes], [set_IP_attributes], [get_IP_list]            *)
(* ===================================================================== *)

(** What the accessors return: a row tuple, a list, or an integer. *)
Inductive py_ret :=
| RetTuple (cells : list cell)
| RetList (cells : list cell)
| RetInt (z : Z).

(** Lines 145-152: the column list, or [None] at the first name that is
    not whitelisted. *)
Fixpoint checked_columns (attributes columns : list string) : option (list string) :=
  match attributes with
  | [] => Some columns
  | attribute :: rest =>
      if negb (Py.mem attribute VALID_COLUMN_NAMES) then None
      else checked_columns rest (columns ++ [attribute])
  end.

Definition get_IP_attributes (IP : string) (attributes : list string) : M py_ret :=
  (connect_to_db ;;
   match checked_columns attributes [] with
   | None => print "Invalid column name" ;; close ;; ret (RetInt (-1))
   | Some columns =>
       results <- sql (SelectColumns columns IP) ;;
       match results with
       | row :: _ => close ;; ret (RetTuple row)
       | [] => print "Invalid IP address" ;; close ;; ret (RetInt (-1))
       end
   end)%py.

(** Lines 193-200: the assignments of the [SET] list, or [None] at the
    first name that is not whitelisted. Both lists have the same length
    here. *)
Fixpoint checked_assignments (attributes : list string) (values : list Py.value)
    (query : list (string * string)) : option (list (string * string)) :=
  match attributes, values with
  | attribute :: attributes', v :: values' =>
      if negb (Py.mem attribute VALID_COLUMN_NAMES) then None
      else checked_assignments attributes' values'
             (query ++ [(attribute, Py.remove_quotes (Py.str v))])
  | _, _ => Some query
  end.

Definition set_IP_attributes (IP : string) (attributes : list string)
    (values : list Py.value) : M py_ret :=
  (connect_to_db ;;
   if negb (length attributes =? length values)%nat
   then print "Attributes and values must be same length" ;; close ;;
        ret (RetInt (-1))
   else
     match checked_assignments attributes values [] with
     | None => print "Invalid column name" ;; close ;; ret (RetInt (-1))
     | Some query => sql (UpdateColumns query IP) ;; ret (RetInt 0)
     end)%py.

(** Lines 219-232. *)
Definition get_IP_list : M py_ret :=
  (connect_to_db ;;
   results <- sql SelectIps ;;
   ret (RetList (flat_map (fun row => firstn 1 row) results)))%py.


(* ===================================================================== *)
(** ** Vocabulary of the properties                                       *)
(* ===================================================================== *)

(** The six values the sync binds into its statements for one row. *)
Record entry := {
  en_ip : string;
  en_name : string;
  en_type : string;
  en_page : string;
  en_admin : bool;
  en_owned : bool
}.

Definition entry_of (sc : scraped) (server_type : string) (counter : nat) : entry :=
  {| en_ip := sc_ipAddress sc; en_name := sc_name sc; en_type := server_type;
     en_page := Py.str_nat counter; en_admin := sc_admin sc;
     en_owned := sc_owned sc |}.

(** The row an [UPDATE] of line 113 leaves in place of [r]. *)
Definition write_entry (e : entry) (r : server) : server :=
  set_synced (en_name e) (en_type e) (en_page e)
             (Bound (en_admin e)) (Bound (en_owned e)) r.

Definition entry_row (e : entry) : server :=
  new_server (en_ip e) (en_name e) (en_type e) (en_page e)
             (en_admin e) (en_owned e).

(** Update in place if the key is there, append otherwise. *)
Definition upsert_table (e : entry) (t : table) : table :=
  if has_key (en_ip e) t then update_where (en_ip e) (write_entry e) t
  else t ++ [entry_row e].

Definition upserts (es : list entry) (t : table) : table :=
  fold_left (fun t e => upsert_table e t) es t.

(** What a row becomes when every entry with its key is written to it. *)
Definition overwrite (e : entry) (r : server) : server :=
  if matches (en_ip e) r then write_entry e r else r.

Definition overwrites (es : list entry) (r : server) : server :=
  fold_left (fun r e => overwrite e r) es r.

(** The statements of lines 111-116 for one entry on table [t]. *)
Definition entry_stmts (e : entry) (t : table) : list stmt :=
  [SelectName (en_ip e);
   if has_key (en_ip e) t
   then UpdateSynced (en_name e) (en_type e) (en_page e)
                     (en_admin e) (en_owned e) (en_ip e)
   else InsertServer (en_ip e) (en_name e) (en_type e) (en_page e)
                     (en_admin e) (en_owned e)].

Fixpoint upserts_stmts (es : list entry) (t : table) : list stmt :=
  match es with
  | [] => []
  | e :: es' => entry_stmts e t ++ upserts_stmts es' (upsert_table e t)
  end.

(** The values each [UPDATE] or [INSERT] of the sync writes, in order. *)
Fixpoint written (l : list stmt) : list entry :=
  match l with
  | [] => []
  | UpdateSynced nm ty pg ad ow ip :: l'
  | InsertServer ip nm ty pg ad ow :: l' =>
      {| en_ip := ip; en_name := nm; en_type := ty; en_page := pg;
         en_admin := ad; en_owned := ow |} :: written l'
  | _ :: l' => written l'
  end.

(** The keys of the [INSERT] statements, in order. *)
Fixpoint inserted (l : list stmt) : list string :=
  match l with
  | [] => []
  | InsertServer ip _ _ _ _ _ :: l' => ip :: inserted l'
  | _ :: l' => inserted l'
  end.

(** The statements executed, in order. *)
Fixpoint statements (l : list event) : list stmt :=
  match l with
  | [] => []
  | EvExecute q :: l' => q :: statements l'
  | _ :: l' => statements l'
  end.

(** A computation whose end, whose statements and whose effect on the
    table are those of a fixed list of upserts, whatever the table it
    starts from. *)
Definition oblivious {A : Type} (m : M A) : Prop :=
  exists (es : list entry) (o : outcome A),
    forall t, out (m t) = o /\ tbl (m t) = upserts es t /\
              statements (evs (m t)) = upserts_stmts es t.

(** A relation between the table before and after, and a property of
    every event, that a computation maintains. *)
Definition post (R : table -> table -> Prop) (E : event -> Prop)
    {A : Type} (m : M A) : Prop :=
  forall t, R t (tbl (m t)) /\ Forall E (evs (m t)).

(** The query strings fetched, in order. *)
Fixpoint fetches (l : list event) : list string :=
  match l with
  | [] => []
  | EvFetch url :: l' => url :: fetches l'
  | _ :: l' => fetches l'
  end.

(** The key a statement of the sync reads or writes. *)
Definition stmt_key (q : stmt) : option string :=
  match q with
  | SelectName ip => Some ip
  | UpdateSynced _ _ _ _ _ ip => Some ip
  | InsertServer ip _ _ _ _ _ => Some ip
  | SelectColumns _ ip => Some ip
  | UpdateColumns _ ip => Some ip
  | SelectIps => None
  end.

(** Every event that touches the table is a statement on key [X]. *)
Definition touches_only (X : string) (e : event) : Prop :=
  match e with
  | EvExecute q => stmt_key q = Some X
  | _ => True
  end.

(** The rows whose key is not [X], in order. *)
Definition others (X : string) (t : table) : table :=
  filter (fun r => negb (matches X r)) t.

Definition same_others (X : string) (t t' : table) : Prop :=
  others X t' = others X t.

(** No key occurs twice. *)
Definition unique_keys (t : table) : Prop := NoDup (keys t).

Definition keeps_unique (t t' : table) : Prop :=
  unique_keys t -> unique_keys t'.

(** The keys of [t'] are those of [t], in place, then some more. *)
Definition grows (t t' : table) : Prop :=
  exists added, keys t' = keys t ++ added.

Definition unique_and_grows (t t' : table) : Prop :=
  keeps_unique t t' /\ grows t t'.

(** The text a value is stored as: [str(v).replace("'", "")]. *)
Definition stored_text (v : Py.value) : string := Py.remove_quotes (Py.str v).

(** Every row of [t] is still at its place in [t'], with its key and its
    eight caller-owned columns. *)
Definition same_frame (t t' : table) : Prop :=
  forall i r, nth_error t i = Some r ->
    exists r', nth_error t' i = Some r' /\
               ipAddress r' = ipAddress r /\
               mutableFields r' = mutableFields r.

(** One invocation of the sync: the remote it sees, the loop bound of the
    model and the [IP] argument. *)
Record call := {
  call_remote : string -> res node;
  call_fuel : nat;
  call_IP : string
}.

Definition run_call (c : call) (t : table) : table :=
  tbl (IPDB_to_localDB (call_remote c) (call_fuel c) (call_IP c) t).

Definition run_calls (cs : list call) (t : table) : table :=
  fold_left (fun t c => run_call c t) cs t.

(** The sync without a filter, as the words "every extracted record is
    inserted or updated" describe it: the loops of lines 71-119 with the
    test of line 107 left out of the body. *)
Definition upsert_tr (server_type : string) (counter : nat) (tr : node) : M unit :=
  (sc <- eval (scrape_tr tr) ;; upsert sc server_type counter)%py.

Fixpoint upsert_pages (get_page : string -> res node) (fuel : nat)
    (ext server_type : string) (counter : nat) : M unit :=
  match fuel with
  | O => out_of_fuel
  | S fuel' =>
      (pg <- fetch get_page (page_url ext counter) ;;
       trs <- eval (page_trs pg) ;;
       let moreIPs := negb (length trs =? 0)%nat in
       for_each trs (upsert_tr server_type counter) ;;
       if moreIPs then upsert_pages get_page fuel' ext server_type (S counter)
       else ret tt)%py
  end.

Definition upsert_everything (get_page : string -> res node) (fuel : nat)
  : M unit :=
  (connect_to_db ;;
   for_each exts
     (fun ext => upsert_pages get_page fuel ext (server_type_of ext) 0) ;;
   close)%py.

(** The rows at odd positions, counting from zero: [l[1::2]]. *)
Definition odd_indexed {A : Type} (l : list A) : list A :=
  Py.every_second (tl l).

(** The rows at positions 0, 2, 4, ...: [l[::2]]. *)
Definition even_indexed {A : Type} (l : list A) : list A :=
  Py.every_second l.

(** The layout test with the marker in lower case. *)
Definition lowercase_marker_trs (pg : node) : res (list node) :=
  if Py.contains "remote host web service" (get_text pg)
  then connected_trs pg
  else plain_trs pg.

(** A page on which lines 88-116 raise nothing: the rows are found and
    every row can be read. *)
Definition readable (pg : node) (trs : list node) : Prop :=
  page_trs pg = Val trs /\
  forall tr, In tr trs -> exists sc, scrape_tr tr = Val sc.

(* ===================================================================== *)
(** ** Pages to run the model on                                          *)
(* ===================================================================== *)

Module Fixture.

Definition td (cs : list node) : node := Tag "td" [] cs.
Definition txt (s : string) : node := NavigableString s.

(** A listing row as the site renders it: a first cell wrapping the
    link cell, three filler cells, then name, admin and owner. *)
Definition server_tr (ip nm adm own : string) : node :=
  Tag "tr" []
    [ td [ td [ Tag "a"
                  [("href", ("index.php?action=gate&a2=connect&con_ip=" ++ ip)%string)]
                  [txt ip] ] ];
      td []; td []; td [];
      td [txt nm]; td [txt adm]; td [txt own] ].

Definition filler_tr : node := Tag "tr" [] [td [txt "-"]].

(** Header, data rows and footer with a separator row between each. *)
Fixpoint interleave (rows : list node) : list node :=
  match rows with
  | [] => []
  | r :: rows' => filler_tr :: r :: interleave rows'
  end.

Definition listing (rows : list node) : node :=
  Tag "table" [] (filler_tr :: interleave rows ++ [filler_tr; filler_tr]).

Definition empty_table : node := Tag "table" [] [].

(** A page that is not connected: the listing is the fourth table
    inside the tenth table. *)
Definition plain_page (rows : list node) : node :=
  Tag "[document]" []
    (repeat empty_table 9 ++
     [Tag "table" [] [empty_table; empty_table; empty_table; listing rows]]).

(** A connected page: the banner adds tables and the listing is the
    seventeenth table. *)
Definition connected_page (rows : list node) : node :=
  Tag "[document]" []
    (txt "Remote host web service" :: repeat empty_table 16 ++ [listing rows]).

Definition alpha : node := server_tr "10.0.0.1" "Alpha  Node" "Yes" "Gateway".
Definition beta : node := server_tr "10.0.0.2" "Beta" "No" "Server".

(** A remote with one page of two servers under [pub] and nothing else. *)
Definition site (url : string) : res node :=
  if String.eqb url "index.php?action=ip_db&a2=pub&_o=0"
  then Val (plain_page [alpha; beta])
  else Val (plain_page []).


(** A page whose text has the marker in lower case only. The tenth
    table wraps seven tables, so the page has a table at index 16 as
    well as the fourth table inside the tenth. *)
Definition lowercase_page : node :=
  Tag "[document]" []
    (txt "remote host web service" :: repeat empty_table 9 ++
     [Tag "table" []
        [empty_table; empty_table; empty_table; listing [alpha];
         empty_table; empty_table; listing [beta]]]).

Definition row (label : string) : node := Tag "tr" [] [td [txt label]].

Definition seven_rows : list node :=
  [row "0"; row "1"; row "2"; row "3"; row "4"; row "5"; row "6"].

(** A table with one server whose caller-owned columns are filled. *)
Definition stocked : table :=
  [ {| ipAddress := "10.0.0.1"; name := "old name"; type := "Secret";
       page := "7"; admin := Bound false; minimum_protect := "4.2";
       owned := Literal "0"; running := "http"; files := "12";
       cpu := "3"; memory := "2"; bandwidth := "1";
       lastlog := "yesterday"; lastupdated := "today" |} ].

(** Two syncs in a row: everything, then one address. *)
Definition two_calls : list call :=
  [ {| call_remote := site; call_fuel := 5; call_IP := "none" |};
    {| call_remote := site; call_fuel := 5; call_IP := "10.0.0.2" |} ].

Definition alpha_scraped : scraped :=
  {| sc_ipAddress := "10.0.0.1"; sc_name := "Alpha Node";
     sc_admin := true; sc_owned := true |}.

End Fixture.

(* ===================================================================== *)
(** ** Vocabulary of the accessors and of the scraper                     *)
(* ===================================================================== *)

(** Character [c] occurs in [s]. *)
Fixpoint has_char (c : ascii) (s : string) : bool :=
  match s with
  | EmptyString => false
  | String d s' => Ascii.eqb d c || has_char c s'
  end.

(** No character of [s] is whitespace. *)
Fixpoint no_space (s : string) : bool :=
  match s with
  | EmptyString => true
  | String c s' => negb (Py.isspace c) && no_space s'
  end.

(** A word as [s.split()] yields them: not empty, no whitespace. *)
Definition word (w : string) : Prop :=
  w <> EmptyString /\ no_space w = true.


(** The tuple [SELECT *] would hand back for a row just inserted by the
    sync. *)
Definition fresh_tuple (e : entry) : list cell :=
  [Text (en_ip e); Text (en_name e); Text (en_type e); Text (en_page e);
   Flag (Bound (en_admin e)); Text ""; Flag (Bound (en_owned e));
   Text ""; Text ""; Text ""; Text ""; Text ""; Text ""; Text "N/A"].

(** The query strings of one category for counters [0] to [n-1]. *)
Definition page_urls (ext : string) (n : nat) : list string :=
  map (page_url ext) (seq 0 n).

(** The three labels of lines 74-79. *)
Definition server_types : list string := ["Public"; "Private"; "Secret"].

(** The statement is an [UPDATE] or [INSERT] of the sync with a type that
    is not one of the three labels. *)
Definition writes_type (q : stmt) : option string :=
  match q with
  | UpdateSynced _ ty _ _ _ _ => Some ty
  | InsertServer _ _ ty _ _ _ => Some ty
  | _ => None
  end.

Definition labelled (e : event) : Prop :=
  match e with
  | EvExecute q =>
      match writes_type q with
      | Some ty => In ty server_types
      | None => True
      end
  | _ => True
  end.

(** With filter [X], the table gains at most the one row keyed [X], and
    none if that key is there. *)
Definition at_most_one_more (X : string) (t t' : table) : Prop :=
  (has_key X t = true -> length t' = length t) /\
  (has_key X t = false ->
   length t' = length t \/ (length t' = S (length t) /\ has_key X t' = true)) /\
  (has_key X t = true -> has_key X t' = true).

(** The pages of category [ext] at counters below [n] can be read and
    each has a row. *)
Definition full_pages (get_page : string -> res node) (ext : string) (n : nat)
  : Prop :=
  forall k, k < n ->
    exists pg trs, get_page (page_url ext k) = Val pg /\
                   readable pg trs /\ trs <> [].

(** The page of category [ext] at counter [n] has no row. *)
Definition empty_page (get_page : string -> res node) (ext : string) (n : nat)
  : Prop :=
  exists pg, get_page (page_url ext n) = Val pg /\ page_trs pg = Val [].

(** The page behind [url] cannot be fetched, or its tables are not where
    lines 89-92 look for them. *)
Definition page_fails (get_page : string -> res node) (url : string) (e : exn)
  : Prop :=
  get_page url = Exn e \/
  exists pg, get_page url = Val pg /\ page_trs pg = Exn e.

(** The columns only callers write. *)
Definition caller_columns : list string :=
  ["minimum_protect"; "running"; "files"; "cpu"; "memory"; "bandwidth";
   "lastlog"; "lastupdated"].

(** Every row has one of the three labels as its type. *)
Definition typed (t : table) : Prop :=
  Forall (fun r => In (type r) server_types) t.

Definition keeps_typed (t t' : table) : Prop := typed t -> typed t'.

Module Scenario.

(** A remote that serves the same page of one server at every offset. *)
Definition endless (url : string) : res node :=
  Val (Fixture.plain_page [Fixture.alpha]).

(** A remote whose second [pub] page has lost its tables. *)
Definition broken (url : string) : res node :=
  if String.eqb url "index.php?action=ip_db&a2=pub&_o=0"
  then Val (Fixture.plain_page [Fixture.alpha; Fixture.beta])
  else if String.eqb url "index.php?action=ip_db&a2=pub&_o=20"
  then Val (Tag "[document]" [] [Fixture.empty_table])
  else Val (Fixture.plain_page []).

(** A row whose link cell is missing. *)
Definition bad_tr : node := Tag "tr" [] [Fixture.td [Fixture.txt "?"]].

(** Two servers, the second with a key the first could be renamed to. *)
Definition pair : table :=
  Fixture.stocked ++
  [ new_server "10.0.0.2" "Beta" "Public" "0" false false ].

(** An identifier with the character of code 0 in it. *)
Definition nul_key : string := String "a" (String Ascii.zero "b").

(** [Fixture.stocked] and a server under that identifier. *)
Definition pair_with_nul : table :=
  Fixture.stocked ++ [ new_server nul_key "Odd" "Public" "0" false false ].

(** A remote that lists the same address under [pub] and, with another
    name, under [priv]. *)
Definition twice (url : string) : res node :=
  if String.eqb url "index.php?action=ip_db&a2=pub&_o=0"
  then Val (Fixture.plain_page [Fixture.alpha])
  else if String.eqb url "index.php?action=ip_db&a2=priv&_o=0"
  then Val (Fixture.plain_page
              [Fixture.server_tr "10.0.0.1" "Alpha moved" "No" "Gateway"])
  else Val (Fixture.plain_page []).

(** A remote whose first page has a damaged row between two good ones. *)
Definition damaged (url : string) : res node :=
  Val (Fixture.plain_page [Fixture.alpha; bad_tr; Fixture.beta]).

(** How many pages with rows each category of [Fixture.site] has. *)
Definition site_pages (ext : string) : nat :=
  if String.eqb ext "pub" then 1 else 0.

End Scenario.

(* ===================================================================== *)
(** ** Reasoning about runs                                               *)
(* ===================================================================== *)

Lemma bind_ok {A B : Type} (m : M A) (k : A -> M B) t a :
  out (m t) = Ok a ->
  bind m k t = Run (out (k a (tbl (m t)))) (tbl (k a (tbl (m t))))
                   (evs (m t) ++ evs (k a (tbl (m t)))).
Proof. intros H. unfold bind. rewrite H. reflexivity. Qed.

Lemma bind_raised {A B : Type} (m : M A) (k : A -> M B) t e :
  out (m t) = Raised e ->
  bind m k t = Run (Raised e) (tbl (m t)) (evs (m t)).
Proof. intros H. unfold bind. rewrite H. reflexivity. Qed.

Lemma bind_out_of_fuel {A B : Type} (m : M A) (k : A -> M B) t :
  out (m t) = OutOfFuel ->
  bind m k t = Run OutOfFuel (tbl (m t)) (evs (m t)).
Proof. intros H. unfold bind. rewrite H. reflexivity. Qed.

Lemma run_eta {A : Type} (r : run A) : Run (out r) (tbl r) (evs r) = r.
Proof. destruct r. reflexivity. Qed.

Lemma bind_ret {A B : Type} (a : A) (k : A -> M B) t : bind (ret a) k t = k a t.
Proof. unfold bind, ret. simpl. apply run_eta. Qed.

Lemma bind_emit {B : Type} (e : event) (k : unit -> M B) t :
  bind (emit e) k t = Run (out (k tt t)) (tbl (k tt t)) (e :: evs (k tt t)).
Proof. reflexivity. Qed.

Lemma bind_assoc {A B C : Type} (m : M A) (f : A -> M B) (g : B -> M C) t :
  bind (bind m f) g t = bind m (fun a => bind (f a) g) t.
Proof.
  unfold bind. destruct (out (m t)) as [a | e |]; simpl; [| reflexivity ..].
  destruct (out (f a (tbl (m t)))) as [b | e |]; simpl;
    try rewrite app_assoc; reflexivity.
Qed.

Section Post.

Variable R : table -> table -> Prop.
Variable E : event -> Prop.
Hypothesis R_refl : forall t, R t t.
Hypothesis R_trans : forall a b c, R a b -> R b c -> R a c.

Lemma post_ret {A : Type} (a : A) : post R E (ret a).
Proof. intros t. split; [apply R_refl | constructor]. Qed.

Lemma post_raise {A : Type} (e : exn) : post R E (@raise A e).
Proof. intros t. split; [apply R_refl | constructor]. Qed.

Lemma post_out_of_fuel {A : Type} : post R E (@out_of_fuel A).
Proof. intros t. split; [apply R_refl | constructor]. Qed.

Lemma post_eval {A : Type} (r : res A) : post R E (eval r).
Proof. destruct r; [apply post_ret | apply post_raise]. Qed.

Lemma post_emit (e : event) : E e -> post R E (emit e).
Proof. intros He t. split; [apply R_refl | repeat constructor; exact He]. Qed.

Lemma post_bind {A B : Type} (m : M A) (k : A -> M B) :
  post R E m -> (forall a, post R E (k a)) -> post R E (bind m k).
Proof.
  intros Hm Hk t. destruct (Hm t) as [Rm Em].
  destruct (out (m t)) as [a | e |] eqn:Ho.
  - rewrite (bind_ok _ _ _ Ho). simpl.
    destruct (Hk a (tbl (m t))) as [Rk Ek]. split.
    + eapply R_trans; eassumption.
    + apply Forall_app. split; assumption.
  - rewrite (bind_raised _ _ _ Ho). simpl. split; assumption.
  - rewrite (bind_out_of_fuel _ _ _ Ho). simpl. split; assumption.
Qed.

Lemma post_for_each {A : Type} (l : list A) (body : A -> M unit) :
  (forall x, In x l -> post R E (body x)) -> post R E (for_each l body).
Proof.
  induction l as [| x l IH]; intros Hb; simpl.
  - apply post_ret.
  - apply post_bind.
    + apply Hb. left. reflexivity.
    + intros _. apply IH. intros y Hy. apply Hb. right. exact Hy.
Qed.

Lemma post_sql (q : stmt) :
  E (EvExecute q) -> (forall t, R t (snd (execute q t))) -> post R E (sql q).
Proof.
  intros He Hq t. unfold sql. specialize (Hq t).
  destruct (execute q t) as [[rows | e] t']; simpl in *;
    (split; [exact Hq | repeat constructor; exact He]).
Qed.

(** Whatever one row does, the whole sync does. *)
Section Whole.

Variable get_page : string -> res node.
Variable IP : string.
Hypothesis E_fetch : forall url, E (EvFetch url).
Hypothesis E_connect : E EvConnect.
Hypothesis E_close : E EvClose.
Hypothesis post_tr :
  forall server_type counter tr, post R E (sync_tr IP server_type counter tr).

Lemma post_sync_pages fuel ext server_type counter :
  post R E (sync_pages get_page fuel IP ext server_type counter).
Proof.
  revert counter. induction fuel as [| fuel IH]; intros counter; simpl.
  - apply post_out_of_fuel.
  - apply post_bind.
    + unfold fetch. apply post_bind.
      * apply post_emit. apply E_fetch.
      * intros _. apply post_eval.
    + intros pg. apply post_bind; [apply post_eval |].
      intros trs. apply post_bind.
      * apply post_for_each. intros tr _. apply post_tr.
      * intros _. destruct (negb (length trs =? 0)%nat).
        -- apply IH.
        -- apply post_ret.
Qed.

Lemma post_IPDB_to_localDB fuel :
  post R E (IPDB_to_localDB get_page fuel IP).
Proof.
  unfold IPDB_to_localDB. apply post_bind.
  - apply post_emit. exact E_connect.
  - intros _. apply post_bind.
    + apply post_for_each. intros ext _. apply post_sync_pages.
    + intros _. apply post_emit. exact E_close.
Qed.

End Whole.

End Post.

(* ===================================================================== *)
(** ** The table under the statements of the sync                         *)
(* ===================================================================== *)

Lemma has_key_In ip t : has_key ip t = true <-> In ip (keys t).
Proof.
  unfold has_key, keys. rewrite existsb_exists, in_map_iff. split.
  - intros [r [Hr He]]. apply String.eqb_eq in He. exists r. split; assumption.
  - intros [r [He Hr]]. exists r. split; [exact Hr |]. apply String.eqb_eq. exact He.
Qed.

Lemma has_key_app ip t t' : has_key ip (t ++ t') = has_key ip t || has_key ip t'.
Proof. unfold has_key. apply existsb_app. Qed.

Lemma keys_update_where ip f t :
  (forall r, ipAddress (f r) = ipAddress r) ->
  keys (update_where ip f t) = keys t.
Proof.
  intros Hf. unfold keys, update_where. rewrite map_map. apply map_ext.
  intros r. destruct (matches ip r); [apply Hf | reflexivity].
Qed.

Lemma has_key_update_where ip ip' f t :
  (forall r, ipAddress (f r) = ipAddress r) ->
  has_key ip (update_where ip' f t) = has_key ip t.
Proof.
  intros Hf. destruct (has_key ip t) eqn:Hk.
  - apply has_key_In. rewrite keys_update_where by exact Hf.
    apply has_key_In. exact Hk.
  - destruct (has_key ip (update_where ip' f t)) eqn:Hk'; [| reflexivity].
    apply has_key_In in Hk'. rewrite keys_update_where in Hk' by exact Hf.
    apply has_key_In in Hk'. congruence.
Qed.

Lemma update_where_absent ip f t :
  has_key ip t = false -> update_where ip f t = t.
Proof.
  unfold has_key, update_where, matches. induction t as [| r t IH]; simpl.
  - reflexivity.
  - intros H. apply orb_false_iff in H. destruct H as [Hr Ht].
    rewrite Hr, (IH Ht). reflexivity.
Qed.

(** [len(fetchall()) != 0] on line 111 says whether the key is there. *)
Lemma select_name_found ip t :
  negb (length (map (fun r => [Text (name r)]) (filter (matches ip) t)) =? 0)%nat
  = has_key ip t.
Proof.
  unfold has_key, matches. induction t as [| r t IH]; simpl.
  - reflexivity.
  - destruct (String.eqb (ipAddress r) ip); simpl; [reflexivity | exact IH].
Qed.

Lemma write_entry_key e r : ipAddress (write_entry e r) = ipAddress r.
Proof. reflexivity. Qed.

Lemma write_entry_mutable e r : mutableFields (write_entry e r) = mutableFields r.
Proof. reflexivity. Qed.

(** Lines 111-116 in one equation: the two statements executed and the
    table they leave. *)
Lemma upsert_run sc server_type counter t :
  upsert sc server_type counter t =
  Run (Ok tt)
      (upsert_table (entry_of sc server_type counter) t)
      [EvExecute (SelectName (sc_ipAddress sc));
       EvExecute
         (if has_key (sc_ipAddress sc) t
          then UpdateSynced (sc_name sc) server_type (Py.str_nat counter)
                            (sc_admin sc) (sc_owned sc) (sc_ipAddress sc)
          else InsertServer (sc_ipAddress sc) (sc_name sc) server_type
                            (Py.str_nat counter) (sc_admin sc) (sc_owned sc))].
Proof.
  unfold upsert, upsert_table, bind, sql. simpl.
  rewrite select_name_found.
  destruct (has_key (sc_ipAddress sc) t) eqn:Hk; simpl.
  - reflexivity.
  - rewrite Hk. reflexivity.
Qed.

(** One row of a page, case by case. *)
Lemma sync_tr_unreadable IP server_type counter tr e t :
  scrape_tr tr = Exn e ->
  sync_tr IP server_type counter tr t = Run (Raised e) t [].
Proof. intros H. unfold sync_tr, bind. rewrite H. reflexivity. Qed.

Lemma sync_tr_skipped IP server_type counter tr sc t :
  scrape_tr tr = Val sc -> not_wanted (sc_ipAddress sc) IP = true ->
  sync_tr IP server_type counter tr t = Run (Ok tt) t [].
Proof. intros H Hn. unfold sync_tr, bind. rewrite H. simpl. rewrite Hn. reflexivity. Qed.

Lemma sync_tr_wanted IP server_type counter tr sc t :
  scrape_tr tr = Val sc -> not_wanted (sc_ipAddress sc) IP = false ->
  sync_tr IP server_type counter tr t = upsert sc server_type counter t.
Proof.
  intros H Hn. unfold sync_tr, bind. rewrite H. simpl. rewrite Hn.
  rewrite upsert_run. reflexivity.
Qed.

(** A property of the upsert that the skip and the exception share holds
    of the whole loop body. *)
Lemma post_sync_tr (R : table -> table -> Prop) (E : event -> Prop)
    IP server_type counter tr :
  (forall t, R t t) ->
  (forall sc, scrape_tr tr = Val sc -> not_wanted (sc_ipAddress sc) IP = false ->
              post R E (upsert sc server_type counter)) ->
  post R E (sync_tr IP server_type counter tr).
Proof.
  intros Hrefl Hup t. destruct (scrape_tr tr) as [sc | e] eqn:Hs.
  - destruct (not_wanted (sc_ipAddress sc) IP) eqn:Hn.
    + rewrite (sync_tr_skipped _ _ _ _ _ Hs Hn). simpl.
      split; [apply Hrefl | constructor].
    + rewrite (sync_tr_wanted _ _ _ _ _ Hs Hn). apply Hup; [reflexivity | exact Hn].
  - rewrite (sync_tr_unreadable _ _ _ _ _ Hs). simpl.
    split; [apply Hrefl | constructor].
Qed.

(* --------------------------------------------------------------------- *)
(** *** Unique keys                                                       *)
(* --------------------------------------------------------------------- *)

Lemma unique_and_grows_refl t : unique_and_grows t t.
Proof.
  split.
  - intros H. exact H.
  - exists []. rewrite app_nil_r. reflexivity.
Qed.

Lemma unique_and_grows_trans a b c :
  unique_and_grows a b -> unique_and_grows b c -> unique_and_grows a c.
Proof.
  intros [Uab [x Gab]] [Ubc [y Gbc]]. split.
  - intros H. apply Ubc, Uab, H.
  - exists (x ++ y). rewrite Gbc, Gab, app_assoc. reflexivity.
Qed.

Lemma upsert_table_unique_and_grows e t : unique_and_grows t (upsert_table e t).
Proof.
  unfold upsert_table. destruct (has_key (en_ip e) t) eqn:Hk.
  - assert (Hkeys : keys (update_where (en_ip e) (write_entry e) t) = keys t)
      by (apply keys_update_where; intros r; reflexivity).
    split.
    + unfold keeps_unique, unique_keys. rewrite Hkeys. intros H. exact H.
    + exists []. rewrite Hkeys, app_nil_r. reflexivity.
  - assert (Hkeys : keys (t ++ [entry_row e]) = keys t ++ [en_ip e])
      by (unfold keys; rewrite map_app; reflexivity).
    split.
    + unfold keeps_unique, unique_keys. rewrite Hkeys. intros H.
      apply NoDup_app; [exact H | repeat constructor; intros [] |].
      intros x Hx [Hx' | []]. subst x. apply has_key_In in Hx. congruence.
    + exists [en_ip e]. exact Hkeys.
Qed.

Lemma post_unique_IPDB get_page fuel IP :
  post unique_and_grows (fun _ => True) (IPDB_to_localDB get_page fuel IP).
Proof.
  apply post_IPDB_to_localDB; auto using unique_and_grows_refl.
  - exact unique_and_grows_trans.
  - intros server_type counter tr. apply post_sync_tr.
    + exact unique_and_grows_refl.
    + intros sc _ _ t. rewrite upsert_run. simpl. split.
      * apply upsert_table_unique_and_grows.
      * repeat constructor.
Qed.

Lemma run_calls_unique_and_grows cs t : unique_and_grows t (run_calls cs t).
Proof.
  revert t. induction cs as [| c cs IH]; intros t; simpl.
  - apply unique_and_grows_refl.
  - eapply unique_and_grows_trans; [| apply IH].
    apply (post_unique_IPDB (call_remote c) (call_fuel c) (call_IP c) t).
Qed.

(** C2. Whatever sequence of syncs runs, with whatever remote, filter and
    loop bound each (a bound hit midway shows the table at that point), a
    table without a repeated identifier stays so; the identifiers that
    were there keep their places and every identifier added after them is
    new. *)
Theorem sync_never_duplicates_identifier (cs : list call) (t : table) :
  unique_keys t ->
  unique_keys (run_calls cs t) /\
  exists added, keys (run_calls cs t) = keys t ++ added /\
                forall ip, In ip added -> ~ In ip (keys t).
Proof.
  intros Hu. destruct (run_calls_unique_and_grows cs t) as [Hk [added Hg]].
  specialize (Hk Hu). split; [exact Hk |].
  exists added. split; [exact Hg |].
  intros ip Hin Hold. unfold unique_keys in Hk. rewrite Hg in Hk.
  revert Hk Hin Hold. generalize (keys t) as l. induction l as [| x l IH]; simpl.
  - intros _ _ [].
  - intros Hnd Hin [Hx | Hx].
    + subst x. inversion Hnd as [| ? ? Hnot _]. apply Hnot.
      apply in_or_app. right. exact Hin.
    + inversion Hnd. apply IH; assumption.
Qed.

(* --------------------------------------------------------------------- *)
(** *** The filter                                                        *)
(* --------------------------------------------------------------------- *)

Lemma not_wanted_false ip IP :
  not_wanted ip IP = false -> IP <> "none" -> ip = IP.
Proof.
  unfold not_wanted. intros H Hne.
  destruct (String.eqb_spec ip IP) as [Heq | _]; [exact Heq |].
  destruct (String.eqb_spec IP "none") as [Heq | _]; [contradiction | discriminate].
Qed.

Lemma others_update_where X f t :
  (forall r, ipAddress (f r) = ipAddress r) ->
  others X (update_where X f t) = others X t.
Proof.
  intros Hf. unfold others, update_where. induction t as [| r t IH]; simpl.
  - reflexivity.
  - destruct (matches X r) eqn:Hm; simpl.
    + unfold matches in *. rewrite Hf, Hm. simpl. exact IH.
    + rewrite Hm. simpl. rewrite IH. reflexivity.
Qed.

Lemma others_upsert_table e t : others (en_ip e) (upsert_table e t) = others (en_ip e) t.
Proof.
  unfold upsert_table. destruct (has_key (en_ip e) t).
  - apply others_update_where. intros r. reflexivity.
  - unfold others. rewrite filter_app. simpl. unfold matches. simpl.
    rewrite String.eqb_refl. simpl. apply app_nil_r.
Qed.

Lemma post_filtered_IPDB get_page fuel X :
  X <> "none" ->
  post (same_others X) (touches_only X) (IPDB_to_localDB get_page fuel X).
Proof.
  intros HX. apply post_IPDB_to_localDB; try exact I.
  - intros t. reflexivity.
  - unfold same_others. intros a b c Hab Hbc. rewrite Hbc. exact Hab.
  - intros url. exact I.
  - intros server_type counter tr. apply post_sync_tr.
    + intros t. reflexivity.
    + intros sc _ Hn t. apply not_wanted_false in Hn; [| exact HX].
      rewrite upsert_run. simpl. split.
      * unfold same_others. rewrite <- Hn.
        apply (others_upsert_table (entry_of sc server_type counter) t).
      * rewrite Hn. repeat constructor; simpl.
        destruct (has_key X t); reflexivity.
Qed.

(** C4. With a filter [X] other than ["none"], every statement the sync
    executes, on any page of any category, is a statement on the row
    keyed [X]; the rows with another key are afterwards the ones that
    were there before, each unchanged, and none is added. *)
Theorem filtered_sync_touches_only_its_record
    (get_page : string -> res node) (fuel : nat) (X : string) (t : table) :
  X <> "none" ->
  Forall (touches_only X) (evs (IPDB_to_localDB get_page fuel X t)) /\
  others X (tbl (IPDB_to_localDB get_page fuel X t)) = others X t /\
  (forall st counter tr sc t0,
      scrape_tr tr = Val sc -> sc_ipAddress sc <> X ->
      sync_tr X st counter tr t0 = Run (Ok tt) t0 []).
Proof.
  intros HX. destruct (post_filtered_IPDB get_page fuel HX t) as [Ho He].
  split; [exact He |]. split; [exact Ho |].
  intros st counter tr sc t0 Hs Hne. apply sync_tr_skipped with (sc := sc).
  - exact Hs.
  - unfold not_wanted.
    destruct (String.eqb_spec (sc_ipAddress sc) X) as [Heq | _]; [contradiction |].
    destruct (String.eqb_spec X "none") as [Heq | _]; [contradiction | reflexivity].
Qed.

(* --------------------------------------------------------------------- *)
(** *** The columns the sync leaves alone                                 *)
(* --------------------------------------------------------------------- *)

Lemma same_frame_refl t : same_frame t t.
Proof. intros i r H. exists r. auto. Qed.

Lemma same_frame_trans a b c : same_frame a b -> same_frame b c -> same_frame a c.
Proof.
  intros Hab Hbc i r H. destruct (Hab i r H) as [r1 [H1 [K1 M1]]].
  destruct (Hbc i r1 H1) as [r2 [H2 [K2 M2]]].
  exists r2. repeat split; congruence.
Qed.

Lemma same_frame_upsert_table e t : same_frame t (upsert_table e t).
Proof.
  intros i r H. unfold upsert_table. destruct (has_key (en_ip e) t).
  - unfold update_where. rewrite nth_error_map, H. simpl.
    destruct (matches (en_ip e) r).
    + exists (write_entry e r). auto.
    + exists r. auto.
  - exists r. split; [| auto].
    rewrite nth_error_app1; [exact H |].
    apply nth_error_Some. congruence.
Qed.

Lemma post_frame_IPDB get_page fuel IP :
  post same_frame (fun _ => True) (IPDB_to_localDB get_page fuel IP).
Proof.
  apply post_IPDB_to_localDB; auto using same_frame_refl.
  - exact same_frame_trans.
  - intros server_type counter tr. apply post_sync_tr.
    + exact same_frame_refl.
    + intros sc _ _ t. rewrite upsert_run. simpl. split.
      * apply same_frame_upsert_table.
      * repeat constructor.
Qed.

(** C8. For a row that is read from the page, passes the filter and whose
    identifier is in the table, lines 111-113 execute the [SELECT] and the
    [UPDATE] and nothing else; the table afterwards is the old one with
    [name], [type], [page], [admin] and [owned] of the rows of that
    identifier replaced, and [ipAddress] and the eight other columns as
    they were. Over a whole sync, every row that was in the table is
    still at its place with its identifier and those eight columns. *)
Theorem update_writes_only_synced_columns
    (get_page : string -> res node) (fuel : nat)
    (IP server_type : string) (counter : nat) (tr : node) (sc : scraped)
    (t : table) :
  scrape_tr tr = Val sc ->
  not_wanted (sc_ipAddress sc) IP = false ->
  has_key (sc_ipAddress sc) t = true ->
  statements (evs (sync_tr IP server_type counter tr t)) =
    [SelectName (sc_ipAddress sc);
     UpdateSynced (sc_name sc) server_type (Py.str_nat counter)
                  (sc_admin sc) (sc_owned sc) (sc_ipAddress sc)] /\
  tbl (sync_tr IP server_type counter tr t) =
    map (fun r =>
           if String.eqb (ipAddress r) (sc_ipAddress sc)
           then {| ipAddress := ipAddress r;
                   name := sc_name sc;
                   type := server_type;
                   page := Py.str_nat counter;
                   admin := Bound (sc_admin sc);
                   minimum_protect := minimum_protect r;
                   owned := Bound (sc_owned sc);
                   running := running r;
                   files := files r;
                   cpu := cpu r;
                   memory := memory r;
                   bandwidth := bandwidth r;
                   lastlog := lastlog r;
                   lastupdated := lastupdated r |}
           else r) t /\
  same_frame t (tbl (IPDB_to_localDB get_page fuel IP t)).
Proof.
  intros Hs Hn Hk. rewrite (sync_tr_wanted _ _ _ _ _ Hs Hn), upsert_run. simpl.
  rewrite Hk. split; [reflexivity |]. split.
  - unfold upsert_table. simpl. rewrite Hk. reflexivity.
  - apply (post_frame_IPDB get_page fuel IP t).
Qed.

(* --------------------------------------------------------------------- *)
(** *** A sync is a list of upserts                                       *)
(* --------------------------------------------------------------------- *)

Lemma upserts_app es es' t : upserts (es ++ es') t = upserts es' (upserts es t).
Proof. unfold upserts. apply fold_left_app. Qed.

Lemma statements_app l l' : statements (l ++ l') = statements l ++ statements l'.
Proof.
  induction l as [| e l IH]; [reflexivity |].
  destruct e; simpl; rewrite IH; reflexivity.
Qed.

Lemma upserts_stmts_app es es' t :
  upserts_stmts (es ++ es') t = upserts_stmts es t ++ upserts_stmts es' (upserts es t).
Proof.
  revert t. induction es as [| e es IH]; intros t.
  - reflexivity.
  - cbn [app upserts_stmts]. rewrite IH, <- app_assoc. reflexivity.
Qed.

Lemma oblivious_ret {A : Type} (a : A) : oblivious (ret a).
Proof. exists [], (Ok a). intros t. repeat split; reflexivity. Qed.

Lemma oblivious_raise {A : Type} (e : exn) : oblivious (@raise A e).
Proof. exists [], (Raised e). intros t. repeat split; reflexivity. Qed.

Lemma oblivious_out_of_fuel {A : Type} : oblivious (@out_of_fuel A).
Proof. exists [], OutOfFuel. intros t. repeat split; reflexivity. Qed.

Lemma oblivious_eval {A : Type} (r : res A) : oblivious (eval r).
Proof. destruct r; [apply oblivious_ret | apply oblivious_raise]. Qed.

Lemma oblivious_emit (e : event) :
  (forall q, e <> EvExecute q) -> oblivious (emit e).
Proof.
  intros He. exists [], (Ok tt). intros t. repeat split; try reflexivity.
  destruct e; try reflexivity. elim (He q). reflexivity.
Qed.

Lemma oblivious_bind {A B : Type} (m : M A) (k : A -> M B) :
  oblivious m -> (forall a, oblivious (k a)) -> oblivious (bind m k).
Proof.
  intros [es [o Hm]] Hk. destruct o as [a | e |].
  - destruct (Hk a) as [es' [o' Hk']]. exists (es ++ es'), o'. intros t.
    destruct (Hm t) as [Ho [Ht Hs]]. rewrite (bind_ok _ _ _ Ho). simpl.
    destruct (Hk' (tbl (m t))) as [Ho' [Ht' Hs']]. split; [exact Ho' |]. split.
    + rewrite Ht', Ht, upserts_app. reflexivity.
    + rewrite statements_app, Hs, Hs', Ht, upserts_stmts_app. reflexivity.
  - exists es, (Raised e). intros t. destruct (Hm t) as [Ho [Ht Hs]].
    rewrite (bind_raised _ _ _ Ho). simpl. repeat split; assumption.
  - exists es, OutOfFuel. intros t. destruct (Hm t) as [Ho [Ht Hs]].
    rewrite (bind_out_of_fuel _ _ _ Ho). simpl. repeat split; assumption.
Qed.

Lemma oblivious_for_each {A : Type} (l : list A) (body : A -> M unit) :
  (forall x, oblivious (body x)) -> oblivious (for_each l body).
Proof.
  intros Hb. induction l as [| x l IH]; simpl.
  - apply oblivious_ret.
  - apply oblivious_bind; [apply Hb | intros _; exact IH].
Qed.

Lemma oblivious_sync_tr IP server_type counter tr :
  oblivious (sync_tr IP server_type counter tr).
Proof.
  destruct (scrape_tr tr) as [sc | e] eqn:Hs.
  - destruct (not_wanted (sc_ipAddress sc) IP) eqn:Hn.
    + exists [], (Ok tt). intros t.
      rewrite (sync_tr_skipped _ _ _ _ _ Hs Hn). repeat split; reflexivity.
    + exists [entry_of sc server_type counter], (Ok tt). intros t.
      rewrite (sync_tr_wanted _ _ _ _ _ Hs Hn), upsert_run.
      repeat split; reflexivity.
  - exists [], (Raised e). intros t.
    rewrite (sync_tr_unreadable _ _ _ _ _ Hs). repeat split; reflexivity.
Qed.

Lemma oblivious_sync_pages get_page fuel IP ext server_type counter :
  oblivious (sync_pages get_page fuel IP ext server_type counter).
Proof.
  revert counter. induction fuel as [| fuel IH]; intros counter; simpl.
  - apply oblivious_out_of_fuel.
  - apply oblivious_bind.
    + unfold fetch. apply oblivious_bind; [apply oblivious_emit; discriminate |].
      intros _. apply oblivious_eval.
    + intros pg. apply oblivious_bind; [apply oblivious_eval |].
      intros trs. apply oblivious_bind.
      * apply oblivious_for_each. intros tr. apply oblivious_sync_tr.
      * intros _. destruct (negb (length trs =? 0)%nat);
          [apply IH | apply oblivious_ret].
Qed.

Lemma oblivious_IPDB_to_localDB get_page fuel IP :
  oblivious (IPDB_to_localDB get_page fuel IP).
Proof.
  unfold IPDB_to_localDB.
  apply oblivious_bind; [apply oblivious_emit; discriminate |].
  intros _. apply oblivious_bind.
  - apply oblivious_for_each. intros ext. apply oblivious_sync_pages.
  - intros _. apply oblivious_emit. discriminate.
Qed.

(* --------------------------------------------------------------------- *)
(** *** Upserting the same entries again                                  *)
(* --------------------------------------------------------------------- *)

Lemma overwrites_app es es' r :
  overwrites (es ++ es') r = overwrites es' (overwrites es r).
Proof. unfold overwrites. apply fold_left_app. Qed.

Lemma overwrite_key e r : ipAddress (overwrite e r) = ipAddress r.
Proof. unfold overwrite. destruct (matches (en_ip e) r); reflexivity. Qed.

Lemma overwrites_key es r : ipAddress (overwrites es r) = ipAddress r.
Proof.
  revert r. induction es as [| e es IH]; intros r; simpl.
  - reflexivity.
  - unfold overwrites in *. simpl. rewrite IH. apply overwrite_key.
Qed.

(** Writing an entry hides whatever was written before it. *)
Lemma write_entry_overwrite e e' r : write_entry e (overwrite e' r) = write_entry e r.
Proof. unfold overwrite. destruct (matches (en_ip e') r); reflexivity. Qed.

Lemma write_entry_overwrites e es r : write_entry e (overwrites es r) = write_entry e r.
Proof.
  revert r. induction es as [| e' es IH]; intros r.
  - reflexivity.
  - unfold overwrites in *. simpl. rewrite IH. apply write_entry_overwrite.
Qed.

Lemma matches_overwrites ip es r : matches ip (overwrites es r) = matches ip r.
Proof. unfold matches. rewrite overwrites_key. reflexivity. Qed.

Lemma has_key_upsert_table_mono ip e t :
  has_key ip t = true -> has_key ip (upsert_table e t) = true.
Proof.
  intros H. unfold upsert_table. destruct (has_key (en_ip e) t).
  - rewrite has_key_update_where; [exact H | intros r; reflexivity].
  - rewrite has_key_app, H. reflexivity.
Qed.

Lemma has_key_upsert_table_self e t : has_key (en_ip e) (upsert_table e t) = true.
Proof.
  unfold upsert_table. destruct (has_key (en_ip e) t) eqn:Hk.
  - rewrite has_key_update_where; [exact Hk | intros r; reflexivity].
  - rewrite has_key_app. unfold has_key at 2. simpl.
    rewrite String.eqb_refl. apply orb_true_r.
Qed.

(** After the upserts, every key among them is in the table. *)
Lemma upserts_has_keys es t e :
  In e es -> has_key (en_ip e) (upserts es t) = true.
Proof.
  induction es as [| x es IH] using rev_ind; intros Hin.
  - destruct Hin.
  - rewrite upserts_app. simpl. apply in_app_or in Hin.
    destruct Hin as [Hin | [Hx | []]].
    + apply has_key_upsert_table_mono. apply IH. exact Hin.
    + subst x. apply has_key_upsert_table_self.
Qed.

(** On a table that has every key, the upserts are updates in place. *)
Lemma upserts_present es t :
  (forall e, In e es -> has_key (en_ip e) t = true) ->
  upserts es t = map (overwrites es) t.
Proof.
  revert t. induction es as [| e es IH]; intros t Hall.
  - simpl. rewrite map_id. reflexivity.
  - change (upserts (e :: es) t) with (upserts es (upsert_table e t)).
    unfold upsert_table. rewrite (Hall e (or_introl eq_refl)).
    rewrite IH.
    + unfold update_where. rewrite map_map. reflexivity.
    + intros e' Hin. rewrite has_key_update_where.
      * apply Hall. right. exact Hin.
      * intros r. reflexivity.
Qed.

(** Every row the upserts leave already holds what they would write. *)
Lemma upserts_settled es t r :
  In r (upserts es t) -> overwrites es r = r.
Proof.
  revert r. induction es as [| e es IH] using rev_ind; intros r Hin.
  - reflexivity.
  - rewrite upserts_app in Hin. simpl in Hin.
    rewrite overwrites_app. simpl. unfold overwrite at 1.
    rewrite matches_overwrites.
    unfold upsert_table in Hin. destruct (has_key (en_ip e) (upserts es t)) eqn:Hk.
    + unfold update_where in Hin. apply in_map_iff in Hin.
      destruct Hin as [r0 [Hr Hin0]].
      destruct (matches (en_ip e) r0) eqn:Hm0.
      * subst r. unfold matches. rewrite write_entry_key. fold (matches (en_ip e) r0).
        rewrite Hm0, write_entry_overwrites. reflexivity.
      * subst r. rewrite Hm0. apply IH. exact Hin0.
    + apply in_app_or in Hin. destruct Hin as [Hin0 | [Hr | []]].
      * assert (Hm : matches (en_ip e) r = false).
        { unfold matches. destruct (String.eqb_spec (ipAddress r) (en_ip e)) as [Heq | _];
            [| reflexivity].
          assert (Hin' : In (en_ip e) (keys (upserts es t)))
            by (rewrite <- Heq; apply in_map; exact Hin0).
          apply has_key_In in Hin'. congruence. }
        rewrite Hm. apply IH. exact Hin0.
      * subst r. unfold matches, entry_row. simpl. rewrite String.eqb_refl.
        rewrite write_entry_overwrites. reflexivity.
Qed.

Lemma upserts_idempotent es t : upserts es (upserts es t) = upserts es t.
Proof.
  rewrite upserts_present.
  - rewrite <- (map_id (upserts es t)) at 2. apply map_ext_in.
    intros r Hin. apply upserts_settled with (t := t). exact Hin.
  - intros e Hin. apply upserts_has_keys. exact Hin.
Qed.

(** What the statements write does not depend on the table. *)
Lemma written_upserts_stmts es t : written (upserts_stmts es t) = es.
Proof.
  revert t. induction es as [| e es IH]; intros t.
  - reflexivity.
  - cbn [upserts_stmts entry_stmts app].
    destruct e as [ip nm ty pg ad ow]. cbn [en_ip].
    destruct (has_key ip t); cbn [written]; rewrite IH; reflexivity.
Qed.

(** On a table that has every key, nothing is inserted. *)
Lemma inserted_upserts_stmts_present es t :
  (forall e, In e es -> has_key (en_ip e) t = true) ->
  inserted (upserts_stmts es t) = [].
Proof.
  revert t. induction es as [| e es IH]; intros t Hall.
  - reflexivity.
  - cbn [upserts_stmts entry_stmts app].
    rewrite (Hall e (or_introl eq_refl)). cbn [inserted]. apply IH.
    intros e' Hin. apply has_key_upsert_table_mono. apply Hall. right. exact Hin.
Qed.

(** C1. Run the sync, then run it again on the table the first run left
    and the same remote (same filter, same loop bound): the second run
    ends as the first did and leaves the table exactly as it found it, so
    no row is added and no column of any row differs. Its statements
    write, one for one, the values the statements of the first run wrote
    ([name], [type], [page], [admin], [owned] for each identifier), and
    none of them is an [INSERT]. *)
Theorem sync_twice_same_table
    (get_page : string -> res node) (fuel : nat) (IP : string) (t : table) :
  out (IPDB_to_localDB get_page fuel IP (tbl (IPDB_to_localDB get_page fuel IP t)))
    = out (IPDB_to_localDB get_page fuel IP t) /\
  tbl (IPDB_to_localDB get_page fuel IP (tbl (IPDB_to_localDB get_page fuel IP t)))
    = tbl (IPDB_to_localDB get_page fuel IP t) /\
  written (statements (evs (IPDB_to_localDB get_page fuel IP
                              (tbl (IPDB_to_localDB get_page fuel IP t)))))
    = written (statements (evs (IPDB_to_localDB get_page fuel IP t))) /\
  inserted (statements (evs (IPDB_to_localDB get_page fuel IP
                               (tbl (IPDB_to_localDB get_page fuel IP t)))))
    = [].
Proof.
  destruct (oblivious_IPDB_to_localDB get_page fuel IP) as [es [o H]].
  destruct (H t) as [Ho [Ht Hs]].
  destruct (H (tbl (IPDB_to_localDB get_page fuel IP t))) as [Ho' [Ht' Hs']].
  split; [congruence |]. split; [| split].
  - rewrite Ht', Ht. apply upserts_idempotent.
  - rewrite Hs', Hs, !written_upserts_stmts. reflexivity.
  - rewrite Hs', Ht. apply inserted_upserts_stmts_present.
    intros e Hin. apply upserts_has_keys. exact Hin.
Qed.

(* --------------------------------------------------------------------- *)
(** *** The sentinel                                                      *)
(* --------------------------------------------------------------------- *)

Lemma not_wanted_none ip : not_wanted ip "none" = false.
Proof. unfold not_wanted. cbn [String.eqb]. apply andb_false_r. Qed.

Lemma none_skipped_by_others X : X <> "none" -> not_wanted "none" X = true.
Proof.
  intros HX. unfold not_wanted.
  destruct (String.eqb_spec "none" X) as [Heq | _]; [congruence |].
  destruct (String.eqb_spec X "none") as [Heq | _]; [congruence | reflexivity].
Qed.

(** With ["none"] the body of the loop is the body without the test. *)
Lemma sync_tr_none server_type counter tr t :
  sync_tr "none" server_type counter tr t = upsert_tr server_type counter tr t.
Proof.
  unfold sync_tr, upsert_tr, bind.
  destruct (eval (scrape_tr tr) t) as [[sc | e |] t' l]; cbn [out tbl evs];
    [| reflexivity ..].
  rewrite not_wanted_none. reflexivity.
Qed.

Lemma bind_same {A B : Type} (m : M A) (k1 k2 : A -> M B) t :
  (forall a t', k1 a t' = k2 a t') -> bind m k1 t = bind m k2 t.
Proof.
  intros H. unfold bind. destruct (out (m t)); [| reflexivity ..].
  rewrite H. reflexivity.
Qed.

Lemma for_each_same {A : Type} (l : list A) (f g : A -> M unit) t :
  (forall x t', f x t' = g x t') -> for_each l f t = for_each l g t.
Proof.
  intros H. revert t. induction l as [| x l IH]; intros t; [reflexivity |].
  cbn [for_each]. unfold bind. rewrite H.
  destruct (out (g x t)); [| reflexivity ..]. rewrite IH. reflexivity.
Qed.

Lemma sync_pages_none get_page fuel ext server_type counter t :
  sync_pages get_page fuel "none" ext server_type counter t
  = upsert_pages get_page fuel ext server_type counter t.
Proof.
  revert counter t. induction fuel as [| fuel IH]; intros counter t;
    [reflexivity |].
  cbn [sync_pages upsert_pages].
  apply bind_same. intros pg t1. apply bind_same. intros trs t2. cbv zeta.
  unfold bind.
  rewrite (@for_each_same _ trs (sync_tr "none" server_type counter)
             (upsert_tr server_type counter) t2
             (sync_tr_none server_type counter)).
  destruct (out (for_each trs (upsert_tr server_type counter) t2));
    [| reflexivity ..].
  destruct (negb (length trs =? 0)%nat); [rewrite IH |]; reflexivity.
Qed.

Lemma written_cons_pair e t l :
  written (statements (EvExecute (SelectName (en_ip e))
                       :: EvExecute
                            (if has_key (en_ip e) t
                             then UpdateSynced (en_name e) (en_type e) (en_page e)
                                    (en_admin e) (en_owned e) (en_ip e)
                             else InsertServer (en_ip e) (en_name e) (en_type e)
                                    (en_page e) (en_admin e) (en_owned e))
                       :: l))
  = e :: written (statements l).
Proof.
  destruct e as [ip nm ty pg ad ow]. cbn [statements en_ip].
  destruct (has_key ip t); reflexivity.
Qed.

(** With ["none"], the rows of a page that can all be read are all
    written, in the order of the page. *)
Lemma for_each_none_writes_all server_type counter trs : forall scs t,
  map scrape_tr trs = map Val scs ->
  written (statements (evs (for_each trs (sync_tr "none" server_type counter) t)))
  = map (fun sc => entry_of sc server_type counter) scs.
Proof.
  induction trs as [| tr trs IH]; intros scs t Hs.
  - destruct scs; [reflexivity | discriminate Hs].
  - destruct scs as [| sc scs]; [discriminate Hs |].
    cbn [map] in Hs. injection Hs as Hsc Hrest.
    cbn [for_each]. unfold bind.
    rewrite (sync_tr_wanted "none" server_type counter tr t Hsc
               (not_wanted_none (sc_ipAddress sc))).
    rewrite upsert_run. cbn [out tbl evs app map].
    rewrite (written_cons_pair (entry_of sc server_type counter) t).
    rewrite (IH scs _ Hrest). reflexivity.
Qed.

(** C10. Called with ["none"], the default of the parameter, the sync is
    the sync without the test of line 107: for every remote, loop bound
    and table it ends the same way, leaves the same table and does the
    same fetches and statements as the loops that look up and write
    every row read. On a page whose rows can all be read, each of them
    is written, in order. A filter other than ["none"] skips the row
    whose identifier is ["none"] without touching the table, so no value
    of [IP] makes the sync accept that row and no other. *)
Theorem none_filter_is_no_filter
    (get_page : string -> res node) (fuel : nat) (t : table) :
  IPDB_to_localDB get_page fuel "none" t = upsert_everything get_page fuel t /\
  (forall server_type counter trs scs t0,
      map scrape_tr trs = map Val scs ->
      written (statements
                 (evs (for_each trs (sync_tr "none" server_type counter) t0)))
      = map (fun sc => entry_of sc server_type counter) scs) /\
  (forall X server_type counter tr sc t0,
      X <> "none" -> scrape_tr tr = Val sc -> sc_ipAddress sc = "none" ->
      sync_tr X server_type counter tr t0 = Run (Ok tt) t0 []) /\
  (forall X, ~ (forall ip, not_wanted ip X = false <-> ip = "none")).
Proof.
  split; [| split; [| split]].
  - unfold IPDB_to_localDB, upsert_everything.
    apply bind_same. intros _ t1. unfold bind.
    rewrite (@for_each_same _ exts (sync_ext get_page fuel "none")
               (fun ext => upsert_pages get_page fuel ext (server_type_of ext) 0)
               t1).
    + reflexivity.
    + intros ext t2. unfold sync_ext. apply sync_pages_none.
  - intros server_type counter trs scs t0 Hs.
    apply for_each_none_writes_all. exact Hs.
  - intros X server_type counter tr sc t0 HX Hs Hid.
    apply sync_tr_skipped with (sc := sc); [exact Hs |].
    rewrite Hid. apply none_skipped_by_others. exact HX.
  - intros X Hall. destruct (String.eqb_spec X "none") as [Heq | Hne].
    + subst X. assert (H : "other" = "none")
        by (apply Hall; apply not_wanted_none).
      discriminate H.
    + assert (H : not_wanted "none" X = false) by (apply Hall; reflexivity).
      rewrite (none_skipped_by_others Hne) in H. discriminate H.
Qed.

(* ===================================================================== *)
(** ** The whitelist                                                      *)
(* ===================================================================== *)

Lemma mem_In x l : Py.mem x l = true <-> In x l.
Proof.
  unfold Py.mem. rewrite existsb_exists. split.
  - intros [y [Hy He]]. apply String.eqb_eq in He. subst y. exact Hy.
  - intros H. exists x. split; [exact H | apply String.eqb_refl].
Qed.

Lemma mem_not_In x l : ~ In x l -> Py.mem x l = false.
Proof.
  intros H. destruct (Py.mem x l) eqn:Hm; [| reflexivity].
  apply mem_In in Hm. contradiction.
Qed.

Lemma checked_columns_rejects attributes columns a :
  In a attributes -> ~ In a VALID_COLUMN_NAMES ->
  checked_columns attributes columns = None.
Proof.
  revert columns. induction attributes as [| x l IH]; intros columns Hin Hbad.
  - destruct Hin.
  - simpl. destruct (Py.mem x VALID_COLUMN_NAMES) eqn:Hm; simpl; [| reflexivity].
    destruct Hin as [Hx | Hin].
    + subst x. apply mem_In in Hm. contradiction.
    + apply IH; assumption.
Qed.

Lemma checked_assignments_rejects attributes values query a :
  length attributes = length values ->
  In a attributes -> ~ In a VALID_COLUMN_NAMES ->
  checked_assignments attributes values query = None.
Proof.
  revert values query. induction attributes as [| x l IH];
    intros values query Hlen Hin Hbad.
  - destruct Hin.
  - destruct values as [| v values]; [discriminate Hlen |]. simpl.
    destruct (Py.mem x VALID_COLUMN_NAMES) eqn:Hm; simpl; [| reflexivity].
    destruct Hin as [Hx | Hin].
    + subst x. apply mem_In in Hm. contradiction.
    + apply IH; [simpl in Hlen; lia | assumption | assumption].
Qed.

Lemma checked_assignments_accepts attributes values query :
  length attributes = length values ->
  (forall a, In a attributes -> In a VALID_COLUMN_NAMES) ->
  checked_assignments attributes values query
  = Some (query ++ combine attributes (map stored_text values)).
Proof.
  revert values query. induction attributes as [| x l IH];
    intros values query Hlen Hall.
  - destruct values; simpl; rewrite app_nil_r; reflexivity.
  - destruct values as [| v values]; [discriminate Hlen |]. simpl.
    rewrite (proj2 (mem_In x VALID_COLUMN_NAMES) (Hall x (or_introl eq_refl))).
    simpl. rewrite IH.
    + rewrite <- app_assoc. reflexivity.
    + simpl in Hlen. lia.
    + intros a Ha. apply Hall. right. exact Ha.
Qed.

Lemma columns_known attributes (texts : list string) :
  (forall a, In a attributes -> In a VALID_COLUMN_NAMES) ->
  forallb (fun cv => Py.mem (fst cv) table_columns) (combine attributes texts) = true.
Proof.
  intros Hall. apply forallb_forall. intros [c v] Hin. simpl.
  apply in_combine_l in Hin. apply mem_In. apply Hall. exact Hin.
Qed.

(** C3. A field name outside [VALID_COLUMN_NAMES] anywhere in the list
    makes [get_IP_attributes] and [set_IP_attributes] return -1 with the
    table as it was and without executing any statement: each only
    connects, prints and closes. ([set_IP_attributes] prints the length
    message instead when the two lists also differ in length.) *)
Theorem invalid_field_rejected_before_any_query
    (IP : string) (attributes : list string) (values : list Py.value)
    (a : string) (t : table) :
  In a attributes ->
  ~ In a VALID_COLUMN_NAMES ->
  get_IP_attributes IP attributes t
    = Run (Ok (RetInt (-1))) t [EvConnect; EvPrint "Invalid column name"; EvClose] /\
  out (set_IP_attributes IP attributes values t) = Ok (RetInt (-1)) /\
  tbl (set_IP_attributes IP attributes values t) = t /\
  statements (evs (set_IP_attributes IP attributes values t)) = [] /\
  (length attributes = length values ->
   set_IP_attributes IP attributes values t
     = Run (Ok (RetInt (-1))) t [EvConnect; EvPrint "Invalid column name"; EvClose]).
Proof.
  intros Hin Hbad.
  assert (Hset : length attributes = length values ->
                 set_IP_attributes IP attributes values t
                 = Run (Ok (RetInt (-1))) t
                       [EvConnect; EvPrint "Invalid column name"; EvClose]).
  { intros Hlen. unfold set_IP_attributes.
    rewrite (proj2 (Nat.eqb_eq _ _) Hlen). simpl.
    rewrite (@checked_assignments_rejects attributes values [] a Hlen Hin Hbad). reflexivity. }
  split.
  - unfold get_IP_attributes.
    rewrite (@checked_columns_rejects attributes [] a Hin Hbad). reflexivity.
  - destruct (Nat.eq_dec (length attributes) (length values)) as [Hlen | Hlen].
    + rewrite (Hset Hlen). simpl. repeat split; reflexivity.
    + unfold set_IP_attributes.
      rewrite (proj2 (Nat.eqb_neq _ _) Hlen). simpl.
      repeat split; try reflexivity. intros Heq. contradiction.
Qed.

(** What [set_IP_attributes] does once the lengths agree and every name
    is whitelisted: one [UPDATE], and 0 unless it raises. *)
Lemma set_IP_attributes_checked IP attributes values t :
  (forall a, In a attributes -> In a VALID_COLUMN_NAMES) ->
  length attributes = length values ->
  set_IP_attributes IP attributes values t =
  let q := UpdateColumns (combine attributes (map stored_text values)) IP in
  match fst (execute q t) with
  | Val _ => Run (Ok (RetInt 0)) (snd (execute q t)) [EvConnect; EvExecute q]
  | Exn e => Run (Raised e) (snd (execute q t)) [EvConnect; EvExecute q]
  end.
Proof.
  intros Hall Hlen. unfold set_IP_attributes.
  rewrite (proj2 (Nat.eqb_eq _ _) Hlen). cbn [negb].
  rewrite (@checked_assignments_accepts attributes values [] Hlen Hall).
  cbn [app]. cbv zeta.
  unfold connect_to_db. rewrite bind_emit. unfold bind, sql.
  destruct (execute _ t) as [[rows | e] t']; reflexivity.
Qed.

Lemma whitelisted_no_nul c : In c VALID_COLUMN_NAMES -> has_nul c = false.
Proof.
  intros H. unfold VALID_COLUMN_NAMES in H.
  repeat (destruct H as [H | H]; [subst c; reflexivity |]). destruct H.
Qed.

Lemma existsb_never {A : Type} (f : A -> bool) (l : list A) :
  (forall x, In x l -> f x = false) -> existsb f l = false.
Proof.
  induction l as [| x l IH]; intros H; [reflexivity |].
  cbn [existsb]. rewrite (H x (or_introl eq_refl)). cbn [orb].
  apply IH. intros y Hy. apply H. right. exact Hy.
Qed.

(** The [UPDATE] of line 203 on a statement that is accepted. *)
Lemma execute_update_columns_accepted assigns IP t :
  assigns <> [] ->
  length assigns <= SQLITE_MAX_COLUMN ->
  (forall c v, In (c, v) assigns ->
               In c VALID_COLUMN_NAMES /\ has_nul v = false) ->
  execute (UpdateColumns assigns IP) t =
  if has_key IP t then
    if distinct (keys (update_where IP (assign_all assigns) t))
    then (Val [], update_where IP (assign_all assigns) t)
    else (Exn IntegrityError, t)
  else (Val [], t).
Proof.
  intros Hne Hlen Hall. cbn [execute].
  rewrite (@existsb_never _ (fun cv => has_nul (fst cv) || has_nul (snd cv)) assigns).
  - destruct assigns as [| cv assigns']; [contradiction |].
    rewrite (proj2 (Nat.leb_le _ _) Hlen). cbn [negb].
    assert (Hknown : forallb (fun cv0 : string * string =>
                                Py.mem (fst cv0) table_columns)
                             (cv :: assigns') = true).
    { apply forallb_forall. intros [c v] Hin. apply mem_In.
      exact (proj1 (Hall c v Hin)). }
    rewrite Hknown. reflexivity.
  - intros [c v] Hin. destruct (Hall c v Hin) as [Hc Hv]. cbn [fst snd].
    rewrite (@whitelisted_no_nul c Hc), Hv. reflexivity.
Qed.



(* ===================================================================== *)
(** ** Which rows of the table are read                                   *)
(* ===================================================================== *)

Lemma list_ind_by_two {A : Type} (P : list A -> Prop) :
  P [] -> (forall x, P [x]) -> (forall x y l, P l -> P (x :: y :: l)) ->
  forall l, P l.
Proof.
  intros H0 H1 H2 l.
  assert (H : P l /\ forall x, P (x :: l)).
  { induction l as [| y l [IHl IHxl]].
    - split; [exact H0 | exact H1].
    - split; [apply IHxl |]. intros x. apply H2. exact IHl. }
  exact (proj1 H).
Qed.

Lemma length_every_second {A : Type} (l : list A) :
  length (Py.every_second l) = (length l + 1) / 2.
Proof.
  induction l as [| x | x y l IH] using list_ind_by_two.
  - reflexivity.
  - reflexivity.
  - change (Py.every_second (x :: y :: l)) with (x :: Py.every_second l).
    cbn [length]. rewrite IH.
    replace (S (S (length l)) + 1) with ((length l + 1) + 1 * 2) by lia.
    rewrite Nat.div_add by lia. lia.
Qed.

Lemma nth_error_every_second {A : Type} (l : list A) (i : nat) :
  nth_error (Py.every_second l) i = nth_error l (2 * i).
Proof.
  revert i. induction l as [| x | x y l IH] using list_ind_by_two; intros i.
  - destruct i; reflexivity.
  - destruct i as [| i]; [reflexivity |].
    replace (2 * S i) with (S (S (2 * i))) by lia. simpl.
    destruct i; reflexivity.
  - change (Py.every_second (x :: y :: l)) with (x :: Py.every_second l).
    destruct i as [| i]; [reflexivity |].
    replace (2 * S i) with (S (S (2 * i))) by lia. simpl. apply IH.
Qed.

Lemma nth_error_tl {A : Type} (l : list A) (i : nat) :
  nth_error (tl l) i = nth_error l (S i).
Proof. destruct l; [destruct i |]; reflexivity. Qed.

Lemma length_tl {A : Type} (l : list A) : length (tl l) = length l - 1.
Proof. destruct l; simpl; lia. Qed.

Lemma length_upto_last {A : Type} (l : list A) :
  length (removelast l) = length l - 1.
Proof.
  induction l as [| x l IH]; [reflexivity |].
  destruct l as [| y l]; [reflexivity |].
  change (removelast (x :: y :: l)) with (x :: removelast (y :: l)).
  cbn [length] in *. rewrite IH. lia.
Qed.

Lemma nth_error_upto_last {A : Type} (l : list A) (i : nat) :
  nth_error (removelast l) i =
  if (i <? length l - 1)%nat then nth_error l i else None.
Proof.
  revert i. induction l as [| x l IH]; intros i.
  - destruct i; reflexivity.
  - destruct l as [| y l].
    + destruct i; reflexivity.
    + change (removelast (x :: y :: l)) with (x :: removelast (y :: l)).
      destruct i as [| i]; [reflexivity |].
      cbn [nth_error]. rewrite IH. cbn [length].
      replace (S (S (length l)) - 1) with (S (S (length l) - 1)) by lia.
      reflexivity.
Qed.

(** C7, as amended. The rows read from the table are those at the even
    positions 0, 2, 4, ... of its row sequence (every second row, counted
    from zero), without the first and the last of these: row [i] of the
    result is row [2*i+2] of the table, and there are
    [(length rows + 1) / 2 - 2] of them. *)
Theorem candidate_rows_are_even_indexed_inner (rows : list node) (i : nat) :
  candidate_rows rows = Py.upto_last (Py.from_1 (even_indexed rows)) /\
  length (candidate_rows rows) = (length rows + 1) / 2 - 2 /\
  nth_error (candidate_rows rows) i =
    if (i <? (length rows + 1) / 2 - 2)%nat then nth_error rows (2 * i + 2) else None.
Proof.
  unfold candidate_rows, even_indexed, Py.upto_last, Py.from_1.
  split; [reflexivity |]. split.
  - rewrite length_upto_last, length_tl, length_every_second. lia.
  - rewrite nth_error_upto_last, length_tl, length_every_second.
    replace ((length rows + 1) / 2 - 1 - 1) with ((length rows + 1) / 2 - 2) by lia.
    destruct (i <? (length rows + 1) / 2 - 2)%nat; [| reflexivity].
    rewrite nth_error_tl, nth_error_every_second.
    replace (2 * S i) with (2 * i + 2) by lia. reflexivity.
Qed.

(* ===================================================================== *)
(** ** Which layout a page is read with                                   *)
(* ===================================================================== *)

Lemma prefix_spec (a b : string) :
  String.prefix a b = true <-> exists post, b = (a ++ post)%string.
Proof.
  revert b. induction a as [| c a IH]; intros b.
  - split; [intros _; exists b; reflexivity | intros _; destruct b; reflexivity].
  - destruct b as [| d b]; simpl.
    + split; [discriminate | intros [post H]; discriminate H].
    + destruct (Ascii.ascii_dec c d) as [Heq | Hne].
      * subst d. rewrite IH. split; intros [post H]; exists post.
        -- rewrite H. reflexivity.
        -- injection H as H. exact H.
      * split; [discriminate |]. intros [post H]. injection H as Hc _.
        congruence.
Qed.

Lemma contains_unfold needle hay :
  Py.contains needle hay =
  if String.prefix needle hay then true
  else match hay with
       | EmptyString => false
       | String _ hay' => Py.contains needle hay'
       end.
Proof. destruct hay; reflexivity. Qed.

(** [needle in hay] holds exactly when [needle] occurs somewhere in [hay],
    character for character. *)
Lemma contains_spec needle hay :
  Py.contains needle hay = true <->
  exists pre post, hay = (pre ++ needle ++ post)%string.
Proof.
  split.
  - induction hay as [| c hay IH]; rewrite contains_unfold;
      destruct (String.prefix needle _) eqn:Hp.
    + intros _. apply prefix_spec in Hp. destruct Hp as [post H].
      exists EmptyString, post. exact H.
    + discriminate.
    + intros _. apply prefix_spec in Hp. destruct Hp as [post H].
      exists EmptyString, post. exact H.
    + intros H. destruct (IH H) as [pre [post Heq]].
      exists (String c pre), post. rewrite Heq. reflexivity.
  - intros [pre [post H]]. subst hay. induction pre as [| c pre IH].
    + cbn [append]. rewrite contains_unfold.
      rewrite (proj2 (prefix_spec needle (needle ++ post))); [reflexivity |].
      exists post. reflexivity.
    + cbn [append]. rewrite contains_unfold.
      destruct (String.prefix needle _); [reflexivity | exact IH].
Qed.

(** C6, as amended. The layout is decided by whether the text of the page
    contains ["Remote host web service"], with the capital R and compared
    character by character. If it does, the rows are those of the table
    at index 16 of the page; if not, of the table at index 3 inside the
    table at index 9. A page with too few tables raises [IndexError]. *)
Theorem layout_decided_by_capitalised_marker (pg : node) :
  (Py.contains "Remote host web service" (get_text pg) = true <->
   exists pre post,
     get_text pg = (pre ++ "Remote host web service" ++ post)%string) /\
  page_trs pg =
    if Py.contains "Remote host web service" (get_text pg)
    then match nth_error (find_all "table" pg) 16 with
         | Some t16 => Val (candidate_rows (find_all "tr" t16))
         | None => Exn IndexError
         end
    else match nth_error (find_all "table" pg) 9 with
         | Some t9 =>
             match nth_error (find_all "table" t9) 3 with
             | Some t3 => Val (candidate_rows (find_all "tr" t3))
             | None => Exn IndexError
             end
         | None => Exn IndexError
         end.
Proof.
  split; [apply contains_spec |].
  unfold page_trs, connected_trs, plain_trs, index, res_bind.
  destruct (Py.contains _ _).
  - destruct (nth_error (find_all "table" pg) 16); reflexivity.
  - destruct (nth_error (find_all "table" pg) 9) as [t9 |]; [| reflexivity].
    destruct (nth_error (find_all "table" t9) 3); reflexivity.
Qed.

(* ===================================================================== *)
(** ** Pagination                                                         *)
(* ===================================================================== *)

Lemma fetches_app l l' : fetches (l ++ l') = fetches l ++ fetches l'.
Proof.
  induction l as [| e l IH]; [reflexivity |].
  destruct e; simpl; rewrite IH; reflexivity.
Qed.

(** Rows that can all be read take the loop body to its end, with no
    page fetched on the way. *)
Lemma for_each_readable IP server_type counter trs t :
  (forall tr, In tr trs -> exists sc, scrape_tr tr = Val sc) ->
  out (for_each trs (sync_tr IP server_type counter) t) = Ok tt /\
  fetches (evs (for_each trs (sync_tr IP server_type counter) t)) = [].
Proof.
  revert t. induction trs as [| tr trs IH]; intros t Hall.
  - split; reflexivity.
  - destruct (Hall tr (or_introl eq_refl)) as [sc Hs].
    assert (Hrest : forall tr', In tr' trs -> exists sc', scrape_tr tr' = Val sc')
      by (intros tr' H; apply Hall; right; exact H).
    assert (Hbody : out (sync_tr IP server_type counter tr t) = Ok tt /\
                    fetches (evs (sync_tr IP server_type counter tr t)) = []).
    { destruct (not_wanted (sc_ipAddress sc) IP) eqn:Hn.
      - rewrite (sync_tr_skipped _ _ _ _ _ Hs Hn). split; reflexivity.
      - rewrite (sync_tr_wanted _ _ _ _ _ Hs Hn), upsert_run. split; reflexivity. }
    destruct Hbody as [Ho Hf].
    cbn [for_each]. rewrite (bind_ok _ _ _ Ho). cbn [out evs].
    destruct (IH (tbl (sync_tr IP server_type counter tr t)) Hrest) as [Ho' Hf'].
    split; [exact Ho' |]. rewrite fetches_app, Hf, Hf'. reflexivity.
Qed.

Section Pagination.

Variable get_page : string -> res node.
Variables IP ext server_type : string.

(** One turn of the [while] loop on a page that can be read. *)
Lemma sync_pages_turn fuel counter pg trs t :
  get_page (page_url ext counter) = Val pg ->
  readable pg trs ->
  let body := for_each trs (sync_tr IP server_type counter) t in
  let rest :=
    if negb (length trs =? 0)%nat
    then sync_pages get_page fuel IP ext server_type (S counter) (tbl body)
    else Run (Ok tt) (tbl body) [] in
  sync_pages get_page (S fuel) IP ext server_type counter t =
  Run (out rest) (tbl rest)
      (EvFetch (page_url ext counter) :: evs body ++ evs rest).
Proof.
  intros Hpg [Htrs Hread] body rest.
  destruct (for_each_readable IP server_type counter trs t Hread) as [Ho _].
  cbn [sync_pages]. unfold fetch.
  rewrite bind_assoc, bind_emit, Hpg. cbn [eval].
  rewrite bind_ret, Htrs. cbn [eval]. rewrite bind_ret.
  rewrite (bind_ok _ _ _ Ho). cbn [out tbl evs]. fold body.
  subst rest. destruct (negb (length trs =? 0)%nat); reflexivity.
Qed.

Lemma sync_pages_terminates N : forall counter fuel t,
  (forall k, k < N ->
     exists pg trs, get_page (page_url ext (counter + k)) = Val pg /\
                    readable pg trs /\ trs <> []) ->
  (exists pg, get_page (page_url ext (counter + N)) = Val pg /\
              page_trs pg = Val []) ->
  N < fuel ->
  out (sync_pages get_page fuel IP ext server_type counter t) = Ok tt /\
  fetches (evs (sync_pages get_page fuel IP ext server_type counter t))
    = map (page_url ext) (seq counter (S N)).
Proof.
  induction N as [| N IH]; intros counter fuel t Hfull Hlast Hfuel.
  - destruct Hlast as [pg [Hpg Htrs]]. rewrite Nat.add_0_r in Hpg.
    destruct fuel as [| fuel]; [lia |].
    assert (Hr : readable pg []) by (split; [exact Htrs | intros tr []]).
    rewrite (sync_pages_turn fuel t Hpg Hr). split; reflexivity.
  - destruct (Hfull 0 ltac:(lia)) as [pg [trs [Hpg [Hr Hne]]]].
    rewrite Nat.add_0_r in Hpg.
    destruct fuel as [| fuel]; [lia |].
    rewrite (sync_pages_turn fuel t Hpg Hr).
    destruct (for_each_readable IP server_type counter trs t (proj2 Hr))
      as [_ Hf].
    assert (Hmore : negb (length trs =? 0)%nat = true)
      by (destruct trs; [contradiction | reflexivity]).
    rewrite Hmore. cbn [out evs fetches].
    destruct (IH (S counter) fuel
                 (tbl (for_each trs (sync_tr IP server_type counter) t)))
      as [Ho' Hf'].
    + intros k Hk. replace (S counter + k) with (counter + S k) by lia.
      apply Hfull. lia.
    + replace (S counter + N) with (counter + S N) by lia. exact Hlast.
    + lia.
    + split; [exact Ho' |].
      rewrite fetches_app, Hf, Hf'. reflexivity.
Qed.

End Pagination.

(** C5. If, for one category, the pages at counters 0 to N-1 can be read
    and each has at least one row, and the page at counter N has none,
    then the loop of that category returns (once the model's bound
    exceeds N) after fetching exactly the N+1 query strings with offsets
    0*20, 1*20, ..., N*20, in this order. *)
Theorem pagination_fetches_N_plus_1_pages
    (get_page : string -> res node) (IP ext : string) (N fuel : nat) (t : table) :
  (forall k, k < N ->
     exists pg trs, get_page (page_url ext k) = Val pg /\
                    readable pg trs /\ trs <> []) ->
  (exists pg, get_page (page_url ext N) = Val pg /\ page_trs pg = Val []) ->
  N < fuel ->
  out (sync_ext get_page fuel IP ext t) = Ok tt /\
  fetches (evs (sync_ext get_page fuel IP ext t))
    = map (fun k => ("index.php?action=ip_db&a2=" ++ ext ++ "&_o="
                       ++ Py.str_nat (k * 20))%string)
          (seq 0 (S N)).
Proof.
  intros Hfull Hlast Hfuel. unfold sync_ext.
  apply (@sync_pages_terminates get_page IP ext (server_type_of ext) N 0 fuel t);
    assumption.
Qed.

(* ===================================================================== *)
(** ** Concrete runs                                                      *)
(* ===================================================================== *)

(** A full sync of the fixture site on an empty table: four fetches, two
    inserts, and the connection closed. *)
Example full_sync_of_site :
  out (IPDB_to_localDB Fixture.site 5 "none" []) = Ok tt /\
  keys (tbl (IPDB_to_localDB Fixture.site 5 "none" [])) = ["10.0.0.1"; "10.0.0.2"] /\
  fetches (evs (IPDB_to_localDB Fixture.site 5 "none" [])) =
    ["index.php?action=ip_db&a2=pub&_o=0"; "index.php?action=ip_db&a2=pub&_o=20";
     "index.php?action=ip_db&a2=priv&_o=0"; "index.php?action=ip_db&a2=sec&_o=0"].
Proof. vm_compute. repeat split; reflexivity. Qed.

Example scrape_alpha : scrape_tr Fixture.alpha = Val Fixture.alpha_scraped.
Proof. reflexivity. Qed.

Example connected_page_rows :
  page_trs (Fixture.connected_page [Fixture.beta]) = Val [Fixture.beta].
Proof. reflexivity. Qed.

Lemma sync_never_duplicates_identifier_witness :
  unique_keys (run_calls Fixture.two_calls []) /\
  exists added,
    keys (run_calls Fixture.two_calls []) = keys [] ++ added /\
    forall ip, In ip added -> ~ In ip (keys []).
Proof.
  apply (sync_never_duplicates_identifier Fixture.two_calls (t := [])).
  constructor.
Defined.

Lemma invalid_field_rejected_before_any_query_witness :
  get_IP_attributes "10.0.0.1" ["name"; "DROP TABLE"] Fixture.stocked
    = Run (Ok (RetInt (-1))) Fixture.stocked
          [EvConnect; EvPrint "Invalid column name"; EvClose] /\
  out (set_IP_attributes "10.0.0.1" ["name"; "DROP TABLE"]
         [Py.Str "x"; Py.Str "y"] Fixture.stocked) = Ok (RetInt (-1)) /\
  tbl (set_IP_attributes "10.0.0.1" ["name"; "DROP TABLE"]
         [Py.Str "x"; Py.Str "y"] Fixture.stocked) = Fixture.stocked /\
  statements (evs (set_IP_attributes "10.0.0.1" ["name"; "DROP TABLE"]
                     [Py.Str "x"; Py.Str "y"] Fixture.stocked)) = [] /\
  (length ["name"; "DROP TABLE"] = length [Py.Str "x"; Py.Str "y"] ->
   set_IP_attributes "10.0.0.1" ["name"; "DROP TABLE"]
     [Py.Str "x"; Py.Str "y"] Fixture.stocked
   = Run (Ok (RetInt (-1))) Fixture.stocked
         [EvConnect; EvPrint "Invalid column name"; EvClose]).
Proof.
  apply (@invalid_field_rejected_before_any_query
           "10.0.0.1" ["name"; "DROP TABLE"] [Py.Str "x"; Py.Str "y"]
           "DROP TABLE" Fixture.stocked).
  - simpl. right. left. reflexivity.
  - simpl. intros H.
    repeat (destruct H as [H | H]; [discriminate H |]). exact H.
Defined.

Lemma filtered_sync_touches_only_its_record_witness :
  "10.0.0.2" <> "none" /\
  Forall (touches_only "10.0.0.2")
         (evs (IPDB_to_localDB Fixture.site 5 "10.0.0.2" Fixture.stocked)) /\
  others "10.0.0.2" (tbl (IPDB_to_localDB Fixture.site 5 "10.0.0.2" Fixture.stocked))
    = others "10.0.0.2" Fixture.stocked /\
  (forall st counter tr sc t0,
      scrape_tr tr = Val sc -> sc_ipAddress sc <> "10.0.0.2" ->
      sync_tr "10.0.0.2" st counter tr t0 = Run (Ok tt) t0 []).
Proof.
  split; [discriminate |].
  apply (@filtered_sync_touches_only_its_record
           Fixture.site 5 "10.0.0.2" Fixture.stocked).
  discriminate.
Defined.

Lemma pagination_fetches_N_plus_1_pages_witness :
  out (sync_ext Fixture.site 2 "none" "pub" []) = Ok tt /\
  fetches (evs (sync_ext Fixture.site 2 "none" "pub" []))
    = map (fun k => ("index.php?action=ip_db&a2=" ++ "pub" ++ "&_o="
                       ++ Py.str_nat (k * 20))%string)
          (seq 0 2).
Proof.
  apply (@pagination_fetches_N_plus_1_pages Fixture.site "none" "pub" 1 2 []).
  - intros k Hk. assert (k = 0) by lia. subst k.
    exists (Fixture.plain_page [Fixture.alpha; Fixture.beta]),
           [Fixture.alpha; Fixture.beta].
    split; [reflexivity |]. split; [| discriminate].
    split; [reflexivity |].
    intros tr [H | [H | []]]; subst tr; eexists; reflexivity.
  - exists (Fixture.plain_page []). split; reflexivity.
  - lia.
Defined.

Lemma update_writes_only_synced_columns_witness :
  statements (evs (sync_tr "none" "Public" 0 Fixture.alpha Fixture.stocked)) =
    [SelectName "10.0.0.1";
     UpdateSynced "Alpha Node" "Public" "0" true true "10.0.0.1"] /\
  tbl (sync_tr "none" "Public" 0 Fixture.alpha Fixture.stocked) =
    [ {| ipAddress := "10.0.0.1"; name := "Alpha Node"; type := "Public";
         page := "0"; admin := Bound true; minimum_protect := "4.2";
         owned := Bound true; running := "http"; files := "12";
         cpu := "3"; memory := "2"; bandwidth := "1";
         lastlog := "yesterday"; lastupdated := "today" |} ] /\
  same_frame Fixture.stocked
             (tbl (IPDB_to_localDB Fixture.site 5 "none" Fixture.stocked)).
Proof.
  apply (@update_writes_only_synced_columns
           Fixture.site 5 "none" "Public" 0 Fixture.alpha
           Fixture.alpha_scraped Fixture.stocked); reflexivity.
Defined.


Lemma none_filter_is_no_filter_witness :
  IPDB_to_localDB Fixture.site 5 "none" Fixture.stocked
    = upsert_everything Fixture.site 5 Fixture.stocked /\
  (forall server_type counter trs scs t0,
      map scrape_tr trs = map Val scs ->
      written (statements
                 (evs (for_each trs (sync_tr "none" server_type counter) t0)))
      = map (fun sc => entry_of sc server_type counter) scs) /\
  (forall X server_type counter tr sc t0,
      X <> "none" -> scrape_tr tr = Val sc -> sc_ipAddress sc = "none" ->
      sync_tr X server_type counter tr t0 = Run (Ok tt) t0 []) /\
  (forall X, ~ (forall ip, not_wanted ip X = false <-> ip = "none")).
Proof.
  apply (@none_filter_is_no_filter Fixture.site 5 Fixture.stocked).
Defined.

(** The sync called with ["none"] on the fixture site writes both servers
    of the page, neither of them named ["none"]. *)
Example none_sync_writes_every_server :
  written (statements (evs (IPDB_to_localDB Fixture.site 5 "none" Fixture.stocked)))
  = [ {| en_ip := "10.0.0.1"; en_name := "Alpha Node"; en_type := "Public";
         en_page := "0"; en_admin := true; en_owned := true |};
      {| en_ip := "10.0.0.2"; en_name := "Beta"; en_type := "Public";
         en_page := "0"; en_admin := false; en_owned := false |} ] /\
  inserted (statements (evs (IPDB_to_localDB Fixture.site 5 "none" Fixture.stocked)))
  = ["10.0.0.2"].
Proof. vm_compute. split; reflexivity. Qed.

(** C6, as stated, fails: the text of this page contains ["remote host web
    service"], yet the rows are read from the fourth table inside the
    tenth, not from the table at index 16. *)
Lemma lowercase_marker_not_recognised :
  Py.contains "remote host web service" (get_text Fixture.lowercase_page) = true /\
  connected_trs Fixture.lowercase_page = Val [Fixture.beta] /\
  plain_trs Fixture.lowercase_page = Val [Fixture.alpha] /\
  page_trs Fixture.lowercase_page = Val [Fixture.alpha] /\
  page_trs Fixture.lowercase_page <> lowercase_marker_trs Fixture.lowercase_page.
Proof.
  repeat split; try reflexivity.
  vm_compute. discriminate.
Qed.

(** C7, as stated, fails: of seven rows the code keeps rows 2 and 4; the
    rows at odd positions without the first and last of them are row 3. *)
Lemma odd_indexed_rows_not_selected :
  candidate_rows Fixture.seven_rows = [Fixture.row "2"; Fixture.row "4"] /\
  Py.upto_last (Py.from_1 (odd_indexed Fixture.seven_rows)) = [Fixture.row "3"] /\
  candidate_rows Fixture.seven_rows
    <> Py.upto_last (Py.from_1 (odd_indexed Fixture.seven_rows)).
Proof.
  repeat split; try reflexivity.
  vm_compute. discriminate.
Qed.


(* ===================================================================== *)
(** ** [get_IP_attributes]                                                *)
(* ===================================================================== *)

Unset Implicit Arguments.

Lemma filter_matches_absent IP t :
  has_key IP t = false -> filter (matches IP) t = [].
Proof.
  unfold has_key, matches. induction t as [| r t IH]; simpl; [reflexivity |].
  intros H. apply orb_false_iff in H. destruct H as [Hr Ht].
  rewrite Hr. apply IH. exact Ht.
Qed.

Lemma filter_matches_first IP t1 r t2 :
  has_key IP t1 = false -> ipAddress r = IP ->
  filter (matches IP) (t1 ++ r :: t2) = r :: filter (matches IP) t2.
Proof.
  intros H1 Hr. rewrite filter_app, (@filter_matches_absent IP t1 H1).
  cbn [app filter]. unfold matches at 1. rewrite Hr, String.eqb_refl. reflexivity.
Qed.

Lemma filter_matches_has_key IP t :
  has_key IP t = negb (length (filter (matches IP) t) =? 0)%nat.
Proof.
  unfold has_key, matches. induction t as [| r t IH]; simpl; [reflexivity |].
  destruct (String.eqb (ipAddress r) IP); simpl; [reflexivity | exact IH].
Qed.

Lemma checked_columns_accepts attributes columns :
  (forall a, In a attributes -> In a VALID_COLUMN_NAMES) ->
  checked_columns attributes columns = Some (columns ++ attributes).
Proof.
  revert columns. induction attributes as [| x l IH]; intros columns Hall.
  - cbn [checked_columns]. rewrite app_nil_r. reflexivity.
  - cbn [checked_columns].
    rewrite (proj2 (mem_In x VALID_COLUMN_NAMES) (Hall x (or_introl eq_refl))).
    cbn [negb]. rewrite IH.
    + rewrite <- app_assoc. reflexivity.
    + intros a Ha. apply Hall. right. exact Ha.
Qed.

Lemma checked_columns_Some attributes columns cols :
  checked_columns attributes columns = Some cols ->
  cols = columns ++ attributes /\
  forall a, In a attributes -> In a VALID_COLUMN_NAMES.
Proof.
  revert columns. induction attributes as [| x l IH]; intros columns H.
  - cbn [checked_columns] in H. injection H as H. subst cols.
    rewrite app_nil_r. split; [reflexivity | intros a []].
  - cbn [checked_columns] in H.
    destruct (Py.mem x VALID_COLUMN_NAMES) eqn:Hm; cbn [negb] in H;
      [| discriminate H].
    destruct (IH _ H) as [Hc Hall]. split.
    + rewrite Hc, <- app_assoc. reflexivity.
    + intros a [Ha | Ha]; [subst a; apply mem_In; exact Hm | apply Hall; exact Ha].
Qed.

Lemma whitelisted_known attributes :
  (forall a, In a attributes -> In a VALID_COLUMN_NAMES) ->
  forallb (fun c => Py.mem c table_columns) attributes = true.
Proof.
  intros Hall. apply forallb_forall. intros c Hin. apply mem_In.
  apply Hall. exact Hin.
Qed.

Lemma bind_run {A B : Type} (m : M A) (k : A -> M B) t a t' l :
  m t = Run (Ok a) t' l ->
  bind m k t = Run (out (k a t')) (tbl (k a t')) (l ++ evs (k a t')).
Proof. intros H. unfold bind. rewrite H. reflexivity. Qed.

Lemma names_without_nul attributes :
  (forall a, In a attributes -> In a VALID_COLUMN_NAMES) ->
  existsb has_nul attributes = false.
Proof.
  intros Hall. apply existsb_never. intros a Ha.
  apply whitelisted_no_nul. apply Hall. exact Ha.
Qed.

Lemma sql_select_columns IP attributes t :
  attributes <> [] ->
  length attributes <= SQLITE_MAX_COLUMN ->
  (forall a, In a attributes -> In a VALID_COLUMN_NAMES) ->
  sql (SelectColumns attributes IP) t =
  Run (Ok (map (fun r => map (fun c => get_column c r) attributes)
               (filter (matches IP) t)))
      t [EvExecute (SelectColumns attributes IP)].
Proof.
  intros Hne Hmax Hall. unfold sql. cbn [execute].
  rewrite (names_without_nul attributes Hall).
  destruct attributes as [| x l]; [contradiction |].
  rewrite (proj2 (Nat.leb_le _ _) Hmax). cbn [negb].
  rewrite (@whitelisted_known (x :: l) Hall). reflexivity.
Qed.

(** More names than SQLite takes in a result set. *)
Lemma sql_select_columns_too_many IP attributes t :
  SQLITE_MAX_COLUMN < length attributes ->
  (forall a, In a attributes -> In a VALID_COLUMN_NAMES) ->
  sql (SelectColumns attributes IP) t =
  Run (Raised OperationalError) t [EvExecute (SelectColumns attributes IP)].
Proof.
  intros Hmax Hall. unfold sql. cbn [execute].
  rewrite (names_without_nul attributes Hall).
  destruct attributes as [| x l]; [reflexivity |].
  rewrite (proj2 (Nat.leb_gt _ _) Hmax). reflexivity.
Qed.

(** Lines 154-164 once the names have passed the whitelist. *)
Lemma get_IP_attributes_checked IP attributes t :
  attributes <> [] ->
  length attributes <= SQLITE_MAX_COLUMN ->
  (forall a, In a attributes -> In a VALID_COLUMN_NAMES) ->
  get_IP_attributes IP attributes t =
  match filter (matches IP) t with
  | r :: _ =>
      Run (Ok (RetTuple (map (fun c => get_column c r) attributes))) t
          [EvConnect; EvExecute (SelectColumns attributes IP); EvClose]
  | [] =>
      Run (Ok (RetInt (-1))) t
          [EvConnect; EvExecute (SelectColumns attributes IP);
           EvPrint "Invalid IP address"; EvClose]
  end.
Proof.
  intros Hne Hmax Hall. unfold get_IP_attributes.
  rewrite (@checked_columns_accepts attributes [] Hall). cbn [app].
  unfold connect_to_db. rewrite bind_emit.
  erewrite bind_run by (apply sql_select_columns; assumption).
  destruct (filter (matches IP) t) as [| r rs]; reflexivity.
Qed.


(** X2. [get_IP_attributes] with at least one and at most
    [SQLITE_MAX_COLUMN] names, all whitelisted, on an identifier that is
    there: the tuple holds the requested columns of the first row with
    that identifier, in the order asked, repeated names included. *)
Theorem get_returns_requested_columns
    (IP : string) (attributes : list string) (t1 t2 : table) (r : server) :
  attributes <> [] ->
  length attributes <= SQLITE_MAX_COLUMN ->
  (forall a, In a attributes -> In a VALID_COLUMN_NAMES) ->
  has_key IP t1 = false ->
  ipAddress r = IP ->
  get_IP_attributes IP attributes (t1 ++ r :: t2) =
  Run (Ok (RetTuple (map (fun c => get_column c r) attributes)))
      (t1 ++ r :: t2)
      [EvConnect; EvExecute (SelectColumns attributes IP); EvClose].
Proof.
  intros Hne Hmax Hall Hk Hr.
  rewrite (@get_IP_attributes_checked IP attributes (t1 ++ r :: t2) Hne Hmax Hall).
  rewrite (@filter_matches_first IP t1 r t2 Hk Hr). reflexivity.
Qed.

(** X3. A tuple comes back only for whitelisted names and an identifier that
    is in the table, and it has one cell per name asked. *)
Theorem get_tuple_is_sound
    (IP : string) (attributes : list string) (t : table) (row : list cell) :
  out (get_IP_attributes IP attributes t) = Ok (RetTuple row) ->
  length row = length attributes /\
  has_key IP t = true /\
  attributes <> [] /\
  forall a, In a attributes -> In a VALID_COLUMN_NAMES.
Proof.
  intros H.
  destruct (checked_columns attributes []) as [cols |] eqn:Hc.
  - destruct (@checked_columns_Some attributes [] cols Hc) as [_ Hall].
    destruct attributes as [| x l].
    + vm_compute in H. discriminate H.
    + assert (Hne : x :: l <> []) by discriminate.
      destruct (Nat.le_gt_cases (length (x :: l)) SQLITE_MAX_COLUMN)
        as [Hmax | Hmax].
      2: { unfold get_IP_attributes in H. rewrite Hc in H.
           unfold connect_to_db in H. rewrite bind_emit in H. cbn [out] in H.
           destruct (@checked_columns_Some (x :: l) [] cols Hc) as [Hcols _].
           cbn [app] in Hcols. subst cols.
           unfold bind in H.
           rewrite (sql_select_columns_too_many IP (x :: l) t Hmax Hall) in H.
           discriminate H. }
      rewrite (@get_IP_attributes_checked IP (x :: l) t Hne Hmax Hall) in H.
      rewrite filter_matches_has_key.
      destruct (filter (matches IP) t) as [| r rs]; cbn [out] in H.
      * discriminate H.
      * injection H as H. rewrite <- H.
        split; [cbn [length]; rewrite length_map; reflexivity |].
        repeat split; [exact Hne | exact Hall].
  - unfold get_IP_attributes in H. rewrite Hc in H. discriminate H.
Qed.



(* ===================================================================== *)
(** ** [get_IP_list]                                                      *)
(* ===================================================================== *)

Lemma first_cells_of_ips (l : list string) :
  flat_map (fun row : list cell => firstn 1 row)
           (map (fun k => [Text k]) l)
  = map Text l.
Proof.
  induction l as [| k l IH]; [reflexivity |].
  simpl. f_equal. exact IH.
Qed.

Lemma get_IP_list_run t :
  get_IP_list t =
  Run (Ok (RetList (map Text (sort_keys (keys t))))) t
      [EvConnect; EvExecute SelectIps].
Proof.
  unfold get_IP_list, connect_to_db. rewrite bind_emit.
  unfold bind, sql. cbn [execute out tbl evs ret app].
  rewrite first_cells_of_ips. reflexivity.
Qed.

Lemma In_insert_key x k l : In x (insert_key k l) <-> x = k \/ In x l.
Proof.
  induction l as [| y l IH]; cbn [insert_key].
  - cbn [In]. intuition congruence.
  - destruct (String.leb k y); cbn [In]; [intuition congruence |].
    rewrite IH. intuition congruence.
Qed.

Lemma In_sort_keys x l : In x (sort_keys l) <-> In x l.
Proof.
  unfold sort_keys. induction l as [| k l IH]; cbn [fold_right]; [reflexivity |].
  rewrite In_insert_key, IH. cbn [In]. intuition congruence.
Qed.

Lemma length_insert_key k l : length (insert_key k l) = S (length l).
Proof.
  induction l as [| y l IH]; cbn [insert_key]; [reflexivity |].
  destruct (String.leb k y); cbn [length]; [reflexivity |].
  rewrite IH. reflexivity.
Qed.

Lemma length_sort_keys l : length (sort_keys l) = length l.
Proof.
  unfold sort_keys. induction l as [| k l IH]; cbn [fold_right]; [reflexivity |].
  rewrite length_insert_key, IH. reflexivity.
Qed.

Lemma ascending_cons x l :
  ascending l = true -> (forall y, In y l -> String.leb x y = true) ->
  ascending (x :: l) = true.
Proof.
  intros Hl Hx. destruct l as [| y l]; [reflexivity |].
  cbn [ascending]. rewrite (Hx y (or_introl eq_refl)). exact Hl.
Qed.

Lemma ascending_tail x l : ascending (x :: l) = true -> ascending l = true.
Proof.
  destruct l as [| y l]; [reflexivity |]. cbn [ascending].
  intros H. apply andb_true_iff in H. exact (proj2 H).
Qed.

Lemma ascending_head x y l :
  ascending (x :: y :: l) = true -> String.leb x y = true.
Proof.
  cbn [ascending]. intros H. apply andb_true_iff in H. exact (proj1 H).
Qed.

Lemma ascending_insert_key k l :
  ascending l = true -> ascending (insert_key k l) = true.
Proof.
  induction l as [| x l IH]; intros Hl; [reflexivity |].
  cbn [insert_key]. destruct (String.leb k x) eqn:Hkx.
  - change (String.leb k x && ascending (x :: l) = true).
    rewrite Hkx. exact Hl.
  - assert (Hxk : String.leb x k = true).
    { destruct (String.leb_total k x) as [H | H]; [congruence | exact H]. }
    specialize (IH (ascending_tail x l Hl)).
    destruct l as [| y l].
    + cbn [insert_key ascending]. rewrite Hxk. reflexivity.
    + cbn [insert_key] in *. destruct (String.leb k y) eqn:Hky.
      * change (String.leb x k && ascending (k :: y :: l) = true).
        rewrite Hxk. exact IH.
      * change (String.leb x y && ascending (y :: insert_key k l) = true).
        rewrite (ascending_head x y l Hl). exact IH.
Qed.

Lemma ascending_sort_keys l : ascending (sort_keys l) = true.
Proof.
  unfold sort_keys. induction l as [| k l IH]; cbn [fold_right]; [reflexivity |].
  apply ascending_insert_key. exact IH.
Qed.

(** X5. [get_IP_list] hands back the identifiers of all rows, one per row,
    in ascending order (the order of the primary-key index, not the order
    of insertion). After any sync, whatever the remote, the filter, the
    loop bound and the way the run ends, every identifier that was in the
    table is still in the list. *)
Theorem listing_survives_sync
    (get_page : string -> res node) (fuel : nat) (IP : string) (t : table) :
  out (get_IP_list t) = Ok (RetList (map Text (sort_keys (keys t)))) /\
  ascending (sort_keys (keys t)) = true /\
  length (sort_keys (keys t)) = length t /\
  (forall ip, In ip (sort_keys (keys t)) <-> In ip (keys t)) /\
  (forall ip, In ip (keys t) ->
     exists l,
       out (get_IP_list (tbl (IPDB_to_localDB get_page fuel IP t)))
         = Ok (RetList (map Text l)) /\
       In ip l).
Proof.
  split; [rewrite get_IP_list_run; reflexivity |].
  split; [apply ascending_sort_keys |].
  split; [rewrite length_sort_keys; unfold keys; apply length_map |].
  split; [intros ip; apply In_sort_keys |].
  intros ip Hin.
  destruct (post_unique_IPDB get_page fuel IP t) as [[_ [added Hg]] _].
  exists (sort_keys (keys (tbl (IPDB_to_localDB get_page fuel IP t)))).
  split; [rewrite get_IP_list_run; reflexivity |].
  apply In_sort_keys. rewrite Hg. apply in_or_app. left. exact Hin.
Qed.

(* ===================================================================== *)
(** ** [set_IP_attributes]                                                *)
(* ===================================================================== *)

Lemma distinct_NoDup l : distinct l = true <-> NoDup l.
Proof.
  induction l as [| x l IH]; cbn [distinct].
  - split; [constructor | reflexivity].
  - rewrite andb_true_iff, negb_true_iff, IH. split.
    + intros [Hx Hl]. constructor; [| exact Hl].
      intros Hin. apply mem_In in Hin. congruence.
    + intros H. inversion H as [| ? ? Hx Hl]. split; [| exact Hl].
      apply mem_not_In. exact Hx.
Qed.

Lemma not_whitelisted_found attributes :
  forallb (fun a => Py.mem a VALID_COLUMN_NAMES) attributes = false ->
  exists a, In a attributes /\ ~ In a VALID_COLUMN_NAMES.
Proof.
  induction attributes as [| x l IH]; cbn [forallb]; [discriminate |].
  destruct (Py.mem x VALID_COLUMN_NAMES) eqn:Hm; cbn [andb].
  - intros H. destruct (IH H) as [a [Ha Hbad]]. exists a. split; [right |]; assumption.
  - intros _. exists x. split; [left; reflexivity |].
    intros Hin. apply mem_In in Hin. congruence.
Qed.

Lemma whitelisted_all attributes :
  forallb (fun a => Py.mem a VALID_COLUMN_NAMES) attributes = true ->
  forall a, In a attributes -> In a VALID_COLUMN_NAMES.
Proof.
  intros H a Ha. apply mem_In.
  exact (proj1 (forallb_forall _ _) H a Ha).
Qed.

(** The three ways through [set_IP_attributes]. *)
Lemma set_IP_attributes_cases IP attributes values t :
  (length attributes <> length values /\
   set_IP_attributes IP attributes values t =
   Run (Ok (RetInt (-1))) t
       [EvConnect; EvPrint "Attributes and values must be same length"; EvClose])
  \/
  (length attributes = length values /\
   (exists a, In a attributes /\ ~ In a VALID_COLUMN_NAMES) /\
   set_IP_attributes IP attributes values t =
   Run (Ok (RetInt (-1))) t [EvConnect; EvPrint "Invalid column name"; EvClose])
  \/
  (length attributes = length values /\
   (forall a, In a attributes -> In a VALID_COLUMN_NAMES) /\
   set_IP_attributes IP attributes values t =
   let q := UpdateColumns (combine attributes (map stored_text values)) IP in
   match fst (execute q t) with
   | Val _ => Run (Ok (RetInt 0)) (snd (execute q t)) [EvConnect; EvExecute q]
   | Exn e => Run (Raised e) (snd (execute q t)) [EvConnect; EvExecute q]
   end).
Proof.
  destruct (Nat.eq_dec (length attributes) (length values)) as [Hlen | Hlen].
  - right.
    destruct (forallb (fun a => Py.mem a VALID_COLUMN_NAMES) attributes) eqn:Hw.
    + right. pose proof (whitelisted_all _ Hw) as Hall.
      split; [exact Hlen |]. split; [exact Hall |].
      apply set_IP_attributes_checked; assumption.
    + left. destruct (not_whitelisted_found _ Hw) as [a [Ha Hbad]].
      split; [exact Hlen |]. split; [exists a; split; assumption |].
      unfold set_IP_attributes.
      rewrite (proj2 (Nat.eqb_eq _ _) Hlen). cbn [negb].
      rewrite (@checked_assignments_rejects attributes values [] a Hlen Ha Hbad).
      reflexivity.
  - left. split; [exact Hlen |]. unfold set_IP_attributes.
    rewrite (proj2 (Nat.eqb_neq _ _) Hlen). reflexivity.
Qed.

(** What the [UPDATE] of line 203 can leave behind. *)
Lemma execute_update_columns_cases q IP t :
  snd (execute (UpdateColumns q IP) t) = t \/
  (snd (execute (UpdateColumns q IP) t) = update_where IP (assign_all q) t /\
   distinct (keys (update_where IP (assign_all q) t)) = true).
Proof.
  cbn [execute].
  destruct (existsb _ q); [left; reflexivity |].
  destruct q as [| cv q]; [left; reflexivity |].
  destruct (negb _); [left; reflexivity |].
  destruct (forallb _ (cv :: q)); [| left; reflexivity].
  destruct (has_key IP t); [| left; reflexivity].
  destruct (distinct _); [right; split; reflexivity |].
  left. reflexivity.
Qed.

Lemma set_IP_attributes_table IP attributes values t :
  tbl (set_IP_attributes IP attributes values t) = t \/
  exists q,
    tbl (set_IP_attributes IP attributes values t)
      = update_where IP (assign_all q) t /\
    distinct (keys (update_where IP (assign_all q) t)) = true.
Proof.
  destruct (set_IP_attributes_cases IP attributes values t)
    as [[_ H] | [[_ [_ H]] | [_ [_ H]]]]; rewrite H; try (left; reflexivity).
  cbv zeta.
  destruct (execute_update_columns_cases
              (combine attributes (map stored_text values)) IP t) as [Ht | [Ht Hd]].
  - left. destruct (fst (execute _ t)); exact Ht.
  - right. exists (combine attributes (map stored_text values)).
    split; [| exact Hd]. destruct (fst (execute _ t)); exact Ht.
Qed.

(** X6. [set_IP_attributes] returns -1 exactly when the two lists differ in
    length or a name is not whitelisted; it has then executed nothing and
    the table is as it was. *)
Theorem set_returns_minus_1_iff_rejected
    (IP : string) (attributes : list string) (values : list Py.value)
    (t : table) :
  (out (set_IP_attributes IP attributes values t) = Ok (RetInt (-1)) <->
   length attributes <> length values \/
   exists a, In a attributes /\ ~ In a VALID_COLUMN_NAMES) /\
  (out (set_IP_attributes IP attributes values t) = Ok (RetInt (-1)) ->
   tbl (set_IP_attributes IP attributes values t) = t /\
   statements (evs (set_IP_attributes IP attributes values t)) = []).
Proof.
  destruct (set_IP_attributes_cases IP attributes values t)
    as [[Hlen H] | [[Hlen [Hbad H]] | [Hlen [Hall H]]]]; rewrite H.
  - split; [| intros _; split; reflexivity].
    split; [intros _; left; exact Hlen | reflexivity].
  - split; [| intros _; split; reflexivity].
    split; [intros _; right; exact Hbad | reflexivity].
  - cbv zeta.
    assert (Hno : out (match fst (execute (UpdateColumns
                          (combine attributes (map stored_text values)) IP) t) with
                       | Val _ => Run (Ok (RetInt 0)) (snd (execute (UpdateColumns
                          (combine attributes (map stored_text values)) IP) t))
                          [EvConnect; EvExecute (UpdateColumns
                          (combine attributes (map stored_text values)) IP)]
                       | Exn e => Run (Raised e) (snd (execute (UpdateColumns
                          (combine attributes (map stored_text values)) IP) t))
                          [EvConnect; EvExecute (UpdateColumns
                          (combine attributes (map stored_text values)) IP)]
                       end) <> Ok (RetInt (-1))).
    { destruct (fst (execute _ t)); cbn [out]; discriminate. }
    split; [| intros Habs; contradiction].
    split; [intros Habs; contradiction |].
    intros [Hne | [a [Ha Hbad]]]; [contradiction |].
    elim Hbad. apply Hall. exact Ha.
Qed.

(** X7. [set_IP_attributes] never adds or removes a row and never changes a
    row of another identifier, whatever it is given and however it ends. *)
Theorem set_touches_only_its_identifier
    (IP : string) (attributes : list string) (values : list Py.value)
    (t : table) :
  length (tbl (set_IP_attributes IP attributes values t)) = length t /\
  forall i r, nth_error t i = Some r -> ipAddress r <> IP ->
              nth_error (tbl (set_IP_attributes IP attributes values t)) i = Some r.
Proof.
  destruct (set_IP_attributes_table IP attributes values t) as [H | [q [H _]]];
    rewrite H.
  - split; [reflexivity | intros i r Hi _; exact Hi].
  - unfold update_where. split; [apply length_map |].
    intros i r Hi Hne. rewrite nth_error_map, Hi. cbn [option_map].
    unfold matches. destruct (String.eqb_spec (ipAddress r) IP); [contradiction |].
    reflexivity.
Qed.

(** X8. [set_IP_attributes] keeps the identifiers distinct, also when it is
    asked to write the [ipAddress] column. *)
Theorem set_keeps_keys_unique
    (IP : string) (attributes : list string) (values : list Py.value)
    (t : table) :
  unique_keys t ->
  unique_keys (tbl (set_IP_attributes IP attributes values t)).
Proof.
  intros Hu.
  destruct (set_IP_attributes_table IP attributes values t) as [H | [q [H Hd]]];
    rewrite H.
  - exact Hu.
  - apply distinct_NoDup. exact Hd.
Qed.

Lemma NoDup_map_injective {A B : Type} (g : A -> B) (l : list A) x y :
  NoDup (map g l) -> In x l -> In y l -> g x = g y -> x = y.
Proof.
  induction l as [| z l IH]; cbn [map]; intros Hnd Hx Hy Hg; [destruct Hx |].
  inversion Hnd as [| ? ? Hz Hl]. subst.
  destruct Hx as [Hx | Hx], Hy as [Hy | Hy].
  - congruence.
  - subst z. elim Hz. rewrite Hg. apply in_map. exact Hy.
  - subst z. elim Hz. rewrite <- Hg. apply in_map. exact Hx.
  - apply IH; assumption.
Qed.

Lemma has_key_row IP t :
  has_key IP t = true -> exists r, In r t /\ ipAddress r = IP.
Proof.
  unfold has_key. rewrite existsb_exists. intros [r [Hin He]].
  exists r. split; [exact Hin | apply String.eqb_eq; exact He].
Qed.





(** X9. Writing the [ipAddress] column with an identifier another row has
    (and that holds no character of code 0) violates the primary key: the
    call raises and the table is as it was. *)
Theorem set_identifier_onto_existing_raises
    (IP : string) (v : Py.value) (t : table) :
  has_key IP t = true ->
  has_key (stored_text v) t = true ->
  stored_text v <> IP ->
  has_nul (stored_text v) = false ->
  set_IP_attributes IP ["ipAddress"] [v] t =
  Run (Raised IntegrityError) t
      [EvConnect; EvExecute (UpdateColumns [("ipAddress", stored_text v)] IP)].
Proof.
  intros Hk Hk' Hne Hnul.
  assert (Hall : forall a, In a ["ipAddress"] -> In a VALID_COLUMN_NAMES).
  { intros a [Ha | []]. subst a. left. reflexivity. }
  rewrite (@set_IP_attributes_checked IP ["ipAddress"] [v] t Hall eq_refl).
  cbv zeta. cbn [combine map].
  rewrite (@execute_update_columns_accepted [("ipAddress", stored_text v)] IP t).
  2: discriminate.
  2: { unfold SQLITE_MAX_COLUMN. cbn [length]. lia. }
  2: { intros c0 v0 [H | []]. injection H as Hc Hv. subst c0 v0.
       split; [left; reflexivity | exact Hnul]. }
  rewrite Hk.
  destruct (distinct _) eqn:Hd; [| reflexivity].
  apply distinct_NoDup in Hd. unfold keys, update_where in Hd.
  rewrite map_map in Hd.
  destruct (has_key_row _ _ Hk) as [r1 [Hin1 Hr1]].
  destruct (has_key_row _ _ Hk') as [r2 [Hin2 Hr2]].
  assert (Heq : r1 = r2).
  { apply (NoDup_map_injective _ _ _ _ Hd Hin1 Hin2).
    unfold matches. rewrite Hr1, Hr2, String.eqb_refl.
    destruct (String.eqb_spec (stored_text v) IP); [contradiction |].
    rewrite Hr2. reflexivity. }
  subst r2. congruence.
Qed.


Lemma remove_quotes_quote_free s : has_char "'"%char (Py.remove_quotes s) = false.
Proof.
  induction s as [| c s IH]; [reflexivity |].
  cbn [Py.remove_quotes]. destruct (Ascii.eqb c "'"%char) eqn:Hc; [exact IH |].
  cbn [has_char]. rewrite Hc, IH. reflexivity.
Qed.

(** X11. Every statement [set_IP_attributes] executes is one [UPDATE] on the
    identifier it was given, with whitelisted column names only and no
    quote character in any value. *)
Theorem set_statement_is_whitelisted_and_quote_free
    (IP : string) (attributes : list string) (values : list Py.value)
    (t : table) (q : stmt) :
  In q (statements (evs (set_IP_attributes IP attributes values t))) ->
  exists assigns,
    q = UpdateColumns assigns IP /\
    statements (evs (set_IP_attributes IP attributes values t)) = [q] /\
    forall c v, In (c, v) assigns ->
                In c VALID_COLUMN_NAMES /\ has_char "'"%char v = false.
Proof.
  destruct (set_IP_attributes_cases IP attributes values t)
    as [[_ H] | [[_ [_ H]] | [_ [Hall H]]]]; rewrite H;
    try (intros []; fail).
  cbv zeta.
  assert (Hs : statements (evs
            match fst (execute (UpdateColumns
                     (combine attributes (map stored_text values)) IP) t) with
            | Val _ => Run (Ok (RetInt 0)) (snd (execute (UpdateColumns
                     (combine attributes (map stored_text values)) IP) t))
                     [EvConnect; EvExecute (UpdateColumns
                     (combine attributes (map stored_text values)) IP)]
            | Exn e => Run (Raised e) (snd (execute (UpdateColumns
                     (combine attributes (map stored_text values)) IP) t))
                     [EvConnect; EvExecute (UpdateColumns
                     (combine attributes (map stored_text values)) IP)]
            end)
          = [UpdateColumns (combine attributes (map stored_text values)) IP]).
  { destruct (fst (execute _ t)); reflexivity. }
  rewrite Hs. intros [Hq | []]. subst q.
  exists (combine attributes (map stored_text values)).
  split; [reflexivity |]. split; [reflexivity |].
  intros c v Hin. split.
  - apply Hall. apply in_combine_l in Hin. exact Hin.
  - apply in_combine_r in Hin. apply in_map_iff in Hin.
    destruct Hin as [x [Hx _]]. subst v. apply remove_quotes_quote_free.
Qed.

(* ===================================================================== *)
(** ** A server seen for the first time                                   *)
(* ===================================================================== *)

(** X12. A row read from the page whose identifier is not in the table is
    appended with the six values read and the defaults of line 116, and
    [get_IP_attributes] with all columns reads exactly that back. *)
Theorem inserted_row_reads_back
    (IP server_type : string) (counter : nat) (tr : node) (sc : scraped)
    (t : table) :
  scrape_tr tr = Val sc ->
  not_wanted (sc_ipAddress sc) IP = false ->
  has_key (sc_ipAddress sc) t = false ->
  statements (evs (sync_tr IP server_type counter tr t)) =
    [SelectName (sc_ipAddress sc);
     InsertServer (sc_ipAddress sc) (sc_name sc) server_type
                  (Py.str_nat counter) (sc_admin sc) (sc_owned sc)] /\
  tbl (sync_tr IP server_type counter tr t)
    = t ++ [entry_row (entry_of sc server_type counter)] /\
  out (get_IP_attributes (sc_ipAddress sc) VALID_COLUMN_NAMES
         (tbl (sync_tr IP server_type counter tr t)))
    = Ok (RetTuple (fresh_tuple (entry_of sc server_type counter))).
Proof.
  intros Hs Hn Hk. rewrite (sync_tr_wanted _ _ _ _ _ Hs Hn), upsert_run.
  cbn [evs tbl statements]. rewrite Hk.
  unfold upsert_table. cbn [entry_of en_ip]. rewrite Hk.
  split; [reflexivity |]. split; [reflexivity |].
  assert (Hne : VALID_COLUMN_NAMES <> []) by discriminate.
  assert (Hmax : length VALID_COLUMN_NAMES <= SQLITE_MAX_COLUMN)
    by (unfold SQLITE_MAX_COLUMN, VALID_COLUMN_NAMES; cbn [length]; lia).
  rewrite (@get_IP_attributes_checked (sc_ipAddress sc) VALID_COLUMN_NAMES _
             Hne Hmax (fun a H => H)).
  rewrite (@filter_matches_first (sc_ipAddress sc) t
             (entry_row (entry_of sc server_type counter)) [] Hk eq_refl).
  reflexivity.
Qed.

(* ===================================================================== *)
(** ** How a sync goes on and how it stops                                *)
(* ===================================================================== *)

Lemma bind_ext {A B : Type} (m : M A) (k1 k2 : A -> M B) t :
  (forall a t', k1 a t' = k2 a t') -> bind m k1 t = bind m k2 t.
Proof.
  intros H. unfold bind. destruct (out (m t)); [| reflexivity ..].
  rewrite H. reflexivity.
Qed.

Lemma for_each_app {A : Type} (l1 l2 : list A) (body : A -> M unit) t :
  for_each (l1 ++ l2) body t
  = bind (for_each l1 body) (fun _ => for_each l2 body) t.
Proof.
  revert t. induction l1 as [| x l1 IH]; intros t.
  - cbn [app for_each]. rewrite bind_ret. reflexivity.
  - cbn [app for_each]. rewrite bind_assoc.
    apply bind_ext. intros _ t'. apply IH.
Qed.

Lemma sync_events_never_close get_page fuel IP ext server_type counter t :
  Forall (fun e => e <> EvClose /\ e <> EvConnect)
         (evs (sync_pages get_page fuel IP ext server_type counter t)).
Proof.
  apply (@post_sync_pages (fun _ _ => True) (fun e => e <> EvClose /\ e <> EvConnect)).
  - intros; exact I.
  - intros; exact I.
  - intros url. split; discriminate.
  - intros st c tr. apply post_sync_tr; [intros; exact I |].
    intros sc _ _ t0. rewrite upsert_run. split; [exact I |].
    cbn [evs]. repeat constructor; discriminate.
Qed.

Section Going.

Variable get_page : string -> res node.
Variables IP ext server_type : string.

(** After [n] pages with rows the loop is at counter [n], whatever the
    bound that is left. *)
Lemma sync_pages_prefix n : forall counter t,
  (forall k, k < n ->
     exists pg trs, get_page (page_url ext (counter + k)) = Val pg /\
                    readable pg trs /\ trs <> []) ->
  exists t' l,
    fetches l = map (page_url ext) (seq counter n) /\
    forall fuel,
      sync_pages get_page (n + fuel) IP ext server_type counter t =
      Run (out (sync_pages get_page fuel IP ext server_type (counter + n) t'))
          (tbl (sync_pages get_page fuel IP ext server_type (counter + n) t'))
          (l ++ evs (sync_pages get_page fuel IP ext server_type (counter + n) t')).
Proof.
  induction n as [| n IH]; intros counter t Hfull.
  - exists t, []. split; [reflexivity |]. intros fuel.
    rewrite Nat.add_0_r. cbn [plus app]. symmetry. apply run_eta.
  - destruct (Hfull 0 ltac:(lia)) as [pg [trs [Hpg [Hr Hne]]]].
    rewrite Nat.add_0_r in Hpg.
    destruct (for_each_readable IP server_type counter trs t (proj2 Hr))
      as [_ Hf].
    assert (Hmore : negb (length trs =? 0)%nat = true)
      by (destruct trs; [contradiction | reflexivity]).
    destruct (IH (S counter)
                 (tbl (for_each trs (sync_tr IP server_type counter) t)))
      as [t' [l [Hl Hrun]]].
    { intros k Hk. replace (S counter + k) with (counter + S k) by lia.
      apply Hfull. lia. }
    exists t', (EvFetch (page_url ext counter)
                :: evs (for_each trs (sync_tr IP server_type counter) t) ++ l).
    split.
    + cbn [fetches seq map]. rewrite fetches_app, Hf, Hl. reflexivity.
    + intros fuel. cbn [plus].
      rewrite (@sync_pages_turn get_page IP ext server_type (n + fuel) counter
                 pg trs t Hpg Hr).
      cbv zeta. rewrite Hmore, Hrun. cbn [out tbl evs].
      replace (S counter + n) with (counter + S n) by lia.
      cbn [app]. rewrite <- app_assoc. reflexivity.
Qed.

(** A page that fails ends the loop with its exception. *)
Lemma sync_pages_fails fuel counter e t :
  page_fails get_page (page_url ext counter) e ->
  sync_pages get_page (S fuel) IP ext server_type counter t =
  Run (Raised e) t [EvFetch (page_url ext counter)].
Proof.
  intros [Hpg | [pg [Hpg Htrs]]]; cbn [sync_pages]; unfold fetch;
    rewrite bind_assoc, bind_emit, Hpg; cbn [eval].
  - reflexivity.
  - rewrite bind_ret, Htrs. reflexivity.
Qed.

End Going.

(** X13. If a category never serves a page without rows, its loop never
    returns: at every bound it is still running and has fetched one page
    per turn. *)
Theorem pagination_without_empty_page_never_returns
    (get_page : string -> res node) (IP ext : string) (fuel : nat) (t : table) :
  (forall n, full_pages get_page ext n) ->
  out (sync_ext get_page fuel IP ext t) = OutOfFuel /\
  fetches (evs (sync_ext get_page fuel IP ext t)) = page_urls ext fuel.
Proof.
  intros Hfull. unfold sync_ext.
  destruct (sync_pages_prefix get_page IP ext (server_type_of ext) fuel 0 t)
    as [t' [l [Hl Hrun]]].
  { intros k Hk. apply (Hfull fuel k Hk). }
  specialize (Hrun 0). rewrite Nat.add_0_r in Hrun. rewrite Hrun.
  cbn [sync_pages out_of_fuel out evs]. rewrite app_nil_r.
  split; [reflexivity | exact Hl].
Qed.

Lemma IPDB_raised_in_pub get_page fuel IP e t :
  out (sync_ext get_page fuel IP "pub" t) = Raised e ->
  IPDB_to_localDB get_page fuel IP t =
  Run (Raised e) (tbl (sync_ext get_page fuel IP "pub" t))
      (EvConnect :: evs (sync_ext get_page fuel IP "pub" t)).
Proof.
  intros Ho. unfold IPDB_to_localDB, connect_to_db. rewrite bind_emit.
  cbn [exts for_each]. rewrite bind_assoc.
  rewrite (bind_raised _ _ _ Ho). reflexivity.
Qed.

(** X14. A page of the first category that cannot be fetched or has lost its
    tables ends the whole sync with that exception: the later categories
    are not fetched and the connection is not closed. *)
Theorem failing_page_aborts_sync
    (get_page : string -> res node) (IP : string) (N fuel : nat) (e : exn)
    (t : table) :
  full_pages get_page "pub" N ->
  page_fails get_page (page_url "pub" N) e ->
  N < fuel ->
  out (IPDB_to_localDB get_page fuel IP t) = Raised e /\
  fetches (evs (IPDB_to_localDB get_page fuel IP t)) = page_urls "pub" (S N) /\
  ~ In EvClose (evs (IPDB_to_localDB get_page fuel IP t)).
Proof.
  intros Hfull Hfail Hfuel.
  destruct (sync_pages_prefix get_page IP "pub" (server_type_of "pub") N 0 t)
    as [t' [l [Hl Hrun]]].
  { intros k Hk. apply (Hfull k Hk). }
  pose proof (sync_events_never_close get_page fuel IP "pub"
                (server_type_of "pub") 0 t) as Hnc.
  replace fuel with (N + S (fuel - S N)) in * by lia.
  specialize (Hrun (S (fuel - S N))).
  rewrite (sync_pages_fails get_page IP "pub" (server_type_of "pub")
             (fuel - S N) (0 + N) e t' Hfail) in Hrun.
  cbn [out tbl evs] in Hrun.
  assert (Ho : out (sync_ext get_page (N + S (fuel - S N)) IP "pub" t) = Raised e)
    by (unfold sync_ext; rewrite Hrun; reflexivity).
  rewrite (IPDB_raised_in_pub _ _ _ _ _ Ho). cbn [out evs].
  unfold sync_ext. rewrite Hrun in *. cbn [evs] in *.
  split; [reflexivity |]. split.
  - cbn [fetches]. rewrite fetches_app, Hl. unfold page_urls.
    rewrite seq_S, map_app. reflexivity.
  - intros [Hc | Hin]; [discriminate Hc |].
    rewrite Forall_forall in Hnc. destruct (Hnc _ Hin) as [Hne _].
    apply Hne. reflexivity.
Qed.

Lemma for_each_stops IP server_type counter trs1 bad trs2 e t :
  (forall tr, In tr trs1 -> exists sc, scrape_tr tr = Val sc) ->
  scrape_tr bad = Exn e ->
  for_each (trs1 ++ bad :: trs2) (sync_tr IP server_type counter) t =
  Run (Raised e)
      (tbl (for_each trs1 (sync_tr IP server_type counter) t))
      (evs (for_each trs1 (sync_tr IP server_type counter) t)).
Proof.
  intros Hread Hbad.
  destruct (for_each_readable IP server_type counter trs1 t Hread) as [Ho _].
  rewrite for_each_app, (bind_ok _ _ _ Ho). cbn [for_each].
  unfold bind. rewrite (sync_tr_unreadable IP server_type counter bad _ Hbad).
  cbn [out tbl evs]. rewrite app_nil_r. reflexivity.
Qed.

(** X15. A row that cannot be read ends the sync there. The rows before it on
    the page have been written and stay written; the rows after it are
    not looked at. *)
Theorem unreadable_row_keeps_earlier_rows
    (get_page : string -> res node) (IP ext server_type : string)
    (fuel counter : nat) (pg : node) (trs1 : list node) (bad : node)
    (trs2 : list node) (e : exn) (t : table) :
  get_page (page_url ext counter) = Val pg ->
  page_trs pg = Val (trs1 ++ bad :: trs2) ->
  (forall tr, In tr trs1 -> exists sc, scrape_tr tr = Val sc) ->
  scrape_tr bad = Exn e ->
  sync_pages get_page (S fuel) IP ext server_type counter t =
  Run (Raised e)
      (tbl (for_each trs1 (sync_tr IP server_type counter) t))
      (EvFetch (page_url ext counter)
       :: evs (for_each trs1 (sync_tr IP server_type counter) t)).
Proof.
  intros Hpg Htrs Hread Hbad. cbn [sync_pages]. unfold fetch.
  rewrite bind_assoc, bind_emit, Hpg. cbn [eval].
  rewrite bind_ret, Htrs. cbn [eval]. rewrite bind_ret.
  unfold bind.
  rewrite (for_each_stops IP server_type counter trs1 bad trs2 e t Hread Hbad).
  reflexivity.
Qed.

Lemma IPDB_returns get_page fuel IP t :
  let r1 := sync_ext get_page fuel IP "pub" t in
  let r2 := sync_ext get_page fuel IP "priv" (tbl r1) in
  let r3 := sync_ext get_page fuel IP "sec" (tbl r2) in
  out r1 = Ok tt -> out r2 = Ok tt -> out r3 = Ok tt ->
  IPDB_to_localDB get_page fuel IP t =
  Run (Ok tt) (tbl r3) (EvConnect :: (evs r1 ++ evs r2 ++ evs r3) ++ [EvClose]).
Proof.
  intros r1 r2 r3 H1 H2 H3.
  unfold IPDB_to_localDB, connect_to_db, close. rewrite bind_emit.
  cbn [exts for_each]. unfold bind. fold r1. rewrite H1. cbn [out tbl evs].
  fold r2. rewrite H2. cbn [out tbl evs]. fold r3. rewrite H3.
  cbn [out tbl evs ret emit]. rewrite app_nil_r. reflexivity.
Qed.

(** X16. If each of the three categories serves some pages with rows and then
    a page without, the sync returns and closes the connection, having
    fetched the pages of [pub], then of [priv], then of [sec], each up to
    and including its empty page. *)
Theorem sync_of_finite_listing_returns
    (get_page : string -> res node) (IP : string) (N : string -> nat)
    (fuel : nat) (t : table) :
  (forall ext, In ext exts ->
     full_pages get_page ext (N ext) /\ empty_page get_page ext (N ext) /\
     N ext < fuel) ->
  out (IPDB_to_localDB get_page fuel IP t) = Ok tt /\
  fetches (evs (IPDB_to_localDB get_page fuel IP t))
    = page_urls "pub" (S (N "pub")) ++ page_urls "priv" (S (N "priv"))
      ++ page_urls "sec" (S (N "sec")) /\
  exists l, evs (IPDB_to_localDB get_page fuel IP t) = EvConnect :: l ++ [EvClose].
Proof.
  intros H.
  assert (Hext : forall ext t0, In ext exts ->
            out (sync_ext get_page fuel IP ext t0) = Ok tt /\
            fetches (evs (sync_ext get_page fuel IP ext t0))
              = page_urls ext (S (N ext))).
  { intros ext t0 Hin. destruct (H ext Hin) as [Hfull [Hlast Hfuel]].
    unfold sync_ext.
    apply (@sync_pages_terminates get_page IP ext (server_type_of ext)
             (N ext) 0 fuel t0); assumption. }
  destruct (Hext "pub" t ltac:(cbn; auto)) as [H1 F1].
  destruct (Hext "priv" (tbl (sync_ext get_page fuel IP "pub" t))
              ltac:(cbn; auto)) as [H2 F2].
  destruct (Hext "sec"
              (tbl (sync_ext get_page fuel IP "priv"
                      (tbl (sync_ext get_page fuel IP "pub" t))))
              ltac:(cbn; auto)) as [H3 F3].
  rewrite (IPDB_returns get_page fuel IP t H1 H2 H3). cbn [out evs].
  split; [reflexivity |]. split.
  - cbn [fetches]. rewrite !fetches_app, F1, F2, F3. cbn [fetches].
    rewrite app_nil_r. reflexivity.
  - eexists. reflexivity.
Qed.

(* ===================================================================== *)
(** ** What the table holds after a sync                                  *)
(* ===================================================================== *)

Lemma overwrites_no_match es r :
  (forall e, In e es -> en_ip e <> ipAddress r) -> overwrites es r = r.
Proof.
  revert r. induction es as [| e es IH]; intros r Hno; [reflexivity |].
  unfold overwrites in *. cbn [fold_left].
  assert (Hr : overwrite e r = r).
  { unfold overwrite, matches.
    destruct (String.eqb_spec (ipAddress r) (en_ip e)) as [Heq | _];
      [| reflexivity].
    elim (Hno e (or_introl eq_refl)). symmetry. exact Heq. }
  rewrite Hr. apply IH. intros e' Hin. apply Hno. right. exact Hin.
Qed.

(** X17. A server listed more than once in a run ends up as its last listing
    says: if the writes of the run are [es1], then [e], then writes to
    other identifiers only, every row with the identifier of [e] holds
    the name, type, page, admin and owned values of [e]. *)
Theorem last_listing_wins
    (get_page : string -> res node) (fuel : nat) (IP : string) (t : table)
    (es1 : list entry) (e : entry) (es2 : list entry) (r : server) :
  written (statements (evs (IPDB_to_localDB get_page fuel IP t)))
    = es1 ++ e :: es2 ->
  (forall e', In e' es2 -> en_ip e' <> en_ip e) ->
  In r (tbl (IPDB_to_localDB get_page fuel IP t)) ->
  ipAddress r = en_ip e ->
  name r = en_name e /\ type r = en_type e /\ page r = en_page e /\
  admin r = Bound (en_admin e) /\ owned r = Bound (en_owned e).
Proof.
  intros Hw Hlast Hin Hkey.
  destruct (oblivious_IPDB_to_localDB get_page fuel IP) as [es [o H]].
  destruct (H t) as [_ [Ht Hs]].
  rewrite Hs, written_upserts_stmts in Hw. subst es.
  rewrite Ht in Hin. apply upserts_settled in Hin.
  rewrite overwrites_app in Hin.
  change (overwrites (e :: es2) (overwrites es1 r))
    with (overwrites es2 (overwrite e (overwrites es1 r))) in Hin.
  assert (Hm : matches (en_ip e) (overwrites es1 r) = true).
  { rewrite matches_overwrites. unfold matches. rewrite Hkey.
    apply String.eqb_refl. }
  unfold overwrite in Hin. rewrite Hm in Hin.
  rewrite overwrites_no_match in Hin.
  - rewrite <- Hin. repeat split; reflexivity.
  - intros e' He'. rewrite write_entry_key, overwrites_key, Hkey.
    apply Hlast. exact He'.
Qed.

Lemma at_most_one_more_refl X t : at_most_one_more X t t.
Proof. repeat split; auto. Qed.

Lemma at_most_one_more_trans X a b c :
  at_most_one_more X a b -> at_most_one_more X b c -> at_most_one_more X a c.
Proof.
  intros [A1 [A2 A3]] [B1 [B2 B3]]. split; [| split].
  - intros Ha. rewrite (B1 (A3 Ha)). apply A1. exact Ha.
  - intros Ha. destruct (A2 Ha) as [Hab | [Hab Hb]].
    + destruct (has_key X b) eqn:Hb.
      * left. rewrite (B1 eq_refl). exact Hab.
      * destruct (B2 eq_refl) as [Hbc | [Hbc Hc]].
        -- left. congruence.
        -- right. split; [congruence | exact Hc].
    + right. split; [rewrite (B1 Hb); exact Hab | apply B3; exact Hb].
  - intros Ha. apply B3, A3, Ha.
Qed.

Lemma at_most_one_more_upsert e t :
  at_most_one_more (en_ip e) t (upsert_table e t).
Proof.
  unfold upsert_table, at_most_one_more.
  destruct (has_key (en_ip e) t) eqn:Hk.
  - split; [| split].
    + intros _. unfold update_where. apply length_map.
    + discriminate.
    + intros _. rewrite has_key_update_where; [exact Hk | intros r; reflexivity].
  - split; [| split].
    + discriminate.
    + intros _. right. split.
      * rewrite length_app. cbn [length]. lia.
      * rewrite has_key_app. unfold has_key at 2.
        cbn [existsb entry_row new_server ipAddress].
        rewrite String.eqb_refl. apply orb_true_r.
    + discriminate.
Qed.

(** X18. A sync with a filter adds at most one row to the table, and none if
    the identifier asked for is already there. *)
Theorem filtered_sync_adds_at_most_one_row
    (get_page : string -> res node) (fuel : nat) (X : string) (t : table) :
  X <> "none" ->
  length (tbl (IPDB_to_localDB get_page fuel X t)) <= S (length t) /\
  length t <= length (tbl (IPDB_to_localDB get_page fuel X t)) /\
  (has_key X t = true ->
   length (tbl (IPDB_to_localDB get_page fuel X t)) = length t).
Proof.
  intros HX.
  assert (Hpost : post (at_most_one_more X) (fun _ => True)
                    (IPDB_to_localDB get_page fuel X)).
  { apply post_IPDB_to_localDB; try exact I.
    - apply at_most_one_more_refl.
    - apply at_most_one_more_trans.
    - intros url. exact I.
    - intros server_type counter tr. apply post_sync_tr.
      + apply at_most_one_more_refl.
      + intros sc _ Hn t0. apply not_wanted_false in Hn; [| exact HX].
        rewrite upsert_run. cbn [tbl evs]. split; [| repeat constructor].
        rewrite <- Hn.
        apply (at_most_one_more_upsert (entry_of sc server_type counter) t0). }
  destruct (Hpost t) as [[A1 [A2 A3]] _].
  destruct (has_key X t) eqn:Hk.
  - rewrite (A1 eq_refl). repeat split; lia.
  - destruct (A2 eq_refl) as [H | [H _]]; rewrite H;
      repeat split; try lia; discriminate.
Qed.

(* ===================================================================== *)
(** ** What the scraper hands over                                        *)
(* ===================================================================== *)

Lemma split_ws_cons c s :
  Py.split_ws (String c s) =
  if Py.isspace c then Py.split_ws s
  else match s with
       | EmptyString => [String c EmptyString]
       | String c' _ =>
           if Py.isspace c' then String c EmptyString :: Py.split_ws s
           else match Py.split_ws s with
                | w :: ws => String c w :: ws
                | [] => [String c EmptyString]
                end
       end.
Proof. reflexivity. Qed.

Lemma word_cons c w :
  Py.isspace c = false -> (w = EmptyString \/ word w) -> word (String c w).
Proof.
  intros Hc Hw. split; [discriminate |]. cbn [no_space]. rewrite Hc. cbn [negb andb].
  destruct Hw as [Hw | [_ Hw]]; [subst w; reflexivity | exact Hw].
Qed.

Lemma split_ws_words s : Forall word (Py.split_ws s).
Proof.
  induction s as [| c s IH]; [constructor |].
  rewrite split_ws_cons. destruct (Py.isspace c) eqn:Hc; [exact IH |].
  destruct s as [| c' s'].
  - constructor; [| constructor]. apply word_cons; [exact Hc | left; reflexivity].
  - destruct (Py.isspace c') eqn:Hc'.
    + constructor; [| exact IH]. apply word_cons; [exact Hc | left; reflexivity].
    + destruct (Py.split_ws (String c' s')) as [| w ws].
      * constructor; [| constructor].
        apply word_cons; [exact Hc | left; reflexivity].
      * inversion IH as [| ? ? Hw Hws]. subst.
        constructor; [| exact Hws]. apply word_cons; [exact Hc | right; exact Hw].
Qed.

Lemma split_ws_after_word w rest :
  word w ->
  (rest = EmptyString \/ exists c r, rest = String c r /\ Py.isspace c = true) ->
  Py.split_ws (w ++ rest) = w :: Py.split_ws rest.
Proof.
  intros [Hne Hns] Hrest. induction w as [| c w IH]; [contradiction |].
  cbn [no_space] in Hns. apply andb_true_iff in Hns. destruct Hns as [Hc Hw].
  apply negb_true_iff in Hc.
  cbn [append]. rewrite split_ws_cons, Hc.
  destruct w as [| d w'].
  - cbn [append]. destruct Hrest as [Hr | [c0 [r [Hr Hc0]]]]; subst rest.
    + reflexivity.
    + rewrite Hc0. reflexivity.
  - cbn [append] in *. pose proof Hw as Hw'.
    cbn [no_space] in Hw'. apply andb_true_iff in Hw'. destruct Hw' as [Hd _].
    apply negb_true_iff in Hd. rewrite Hd.
    rewrite IH; [reflexivity | discriminate | exact Hw].
Qed.

Lemma append_empty s : (s ++ EmptyString)%string = s.
Proof. induction s as [| c s IH]; [reflexivity |]. cbn [append]. rewrite IH. reflexivity. Qed.

(** Words joined by single spaces split into the same words. *)
Lemma split_ws_join ws :
  Forall word ws -> Py.split_ws (Py.join " " ws) = ws.
Proof.
  unfold Py.join. induction ws as [| w ws IH]; intros Hall; [reflexivity |].
  inversion Hall as [| ? ? Hw Hws]. subst.
  destruct ws as [| w2 ws].
  - cbn [String.concat].
    pose proof (split_ws_after_word w EmptyString Hw (or_introl eq_refl)) as H1.
    rewrite append_empty in H1. exact H1.
  - change (String.concat " " (w :: w2 :: ws))
      with (w ++ String " "%char (String.concat " " (w2 :: ws)))%string.
    rewrite (split_ws_after_word _ _ Hw).
    + rewrite split_ws_cons. change (Py.isspace " "%char) with true. cbv iota.
      rewrite (IH Hws). reflexivity.
    + right. eexists. eexists. split; reflexivity.
Qed.

Lemma scrape_tr_name tr sc :
  scrape_tr tr = Val sc ->
  exists td5, sc_name sc = Py.join " " (Py.split_ws (get_text td5)).
Proof.
  unfold scrape_tr, res_bind. cbv zeta.
  destruct (index (find_all "td" tr) 0) as [td0 |]; [| discriminate].
  destruct (index (find_all "td" td0) 0) as [td00 |]; [| discriminate].
  destruct (index (find_all "a" td00) 0) as [a0 |]; [| discriminate].
  destruct (get_attr a0 "href") as [href |]; [| discriminate].
  destruct (index (Py.split_on "&"%char href) 2) as [part |]; [| discriminate].
  destruct (index (find_all "td" tr) 5) as [td5 |]; [| discriminate].
  destruct (index (find_all "td" tr) 6) as [td6 |]; [| discriminate].
  destruct (index (find_all "td" tr) 7) as [td7 |]; [| discriminate].
  intros H. injection H as H. subst sc. exists td5. reflexivity.
Qed.

(** X19. The name read from a row is made of words with no whitespace inside,
    separated by single spaces: normalising it again changes nothing. *)
Theorem scraped_name_is_normalised (tr : node) (sc : scraped) :
  scrape_tr tr = Val sc ->
  (exists ws, Forall word ws /\ sc_name sc = Py.join " " ws) /\
  Py.join " " (Py.split_ws (sc_name sc)) = sc_name sc.
Proof.
  intros H. destruct (scrape_tr_name tr sc H) as [td5 Hn].
  pose proof (split_ws_words (get_text td5)) as Hw.
  split.
  - exists (Py.split_ws (get_text td5)). split; [exact Hw | exact Hn].
  - rewrite Hn, (split_ws_join _ Hw). reflexivity.
Qed.

Lemma split_on_nonempty sep s : Py.split_on sep s <> [].
Proof.
  destruct s as [| c s]; cbn [Py.split_on]; [discriminate |].
  destruct (Ascii.eqb c sep); [discriminate |].
  destruct (Py.split_on sep s); discriminate.
Qed.

Lemma concat_cons_char sep c w ws :
  String.concat sep (String c w :: ws) = String c (String.concat sep (w :: ws)).
Proof. destruct ws; reflexivity. Qed.

Lemma split_on_pieces sep s :
  Forall (fun w => has_char sep w = false) (Py.split_on sep s).
Proof.
  induction s as [| c s IH]; [repeat constructor |].
  cbn [Py.split_on]. destruct (Ascii.eqb c sep) eqn:Hc.
  - constructor; [reflexivity | exact IH].
  - destruct (Py.split_on sep s) as [| w ws]; [repeat constructor |].
    + cbn [has_char]. rewrite Hc. reflexivity.
    + inversion IH as [| ? ? Hw Hws]. subst.
      constructor; [| exact Hws]. cbn [has_char]. rewrite Hc, Hw. reflexivity.
Qed.

Lemma split_on_join sep s :
  String.concat (String sep EmptyString) (Py.split_on sep s) = s.
Proof.
  induction s as [| c s IH]; [reflexivity |].
  cbn [Py.split_on]. pose proof (split_on_nonempty sep s) as Hne.
  destruct (Ascii.eqb c sep) eqn:Hc.
  - apply Ascii.eqb_eq in Hc. subst c.
    destruct (Py.split_on sep s) as [| w ws]; [contradiction |].
    change (String.concat (String sep "") ("" :: w :: ws))
      with (String sep (String.concat (String sep "") (w :: ws))).
    rewrite IH. reflexivity.
  - destruct (Py.split_on sep s) as [| w ws]; [contradiction |].
    rewrite concat_cons_char, IH. reflexivity.
Qed.

(** X20. [sep.join(s.split(sep))] is [s], no piece contains [sep], and there
    is always at least one piece. *)
Theorem split_then_join_round_trip (sep : ascii) (s : string) :
  Py.join (String sep EmptyString) (Py.split_on sep s) = s /\
  Forall (fun w => has_char sep w = false) (Py.split_on sep s) /\
  Py.split_on sep s <> [].
Proof.
  split; [apply split_on_join |].
  split; [apply split_on_pieces | apply split_on_nonempty].
Qed.

Lemma has_char_drop c n s :
  has_char c s = false -> has_char c (Py.drop n s) = false.
Proof.
  revert s. induction n as [| n IH]; intros s H; [exact H |].
  destruct s as [| d s]; [reflexivity |]. cbn [Py.drop].
  cbn [has_char] in H. apply orb_false_iff in H. apply IH. exact (proj2 H).
Qed.

(** X21. The identifier read from a row never contains the separator [&] of
    the link it is cut from. *)
Theorem scraped_identifier_has_no_ampersand (tr : node) (sc : scraped) :
  scrape_tr tr = Val sc ->
  has_char "&"%char (sc_ipAddress sc) = false.
Proof.
  unfold scrape_tr, res_bind. cbv zeta.
  destruct (index (find_all "td" tr) 0) as [td0 |]; [| discriminate].
  destruct (index (find_all "td" td0) 0) as [td00 |]; [| discriminate].
  destruct (index (find_all "a" td00) 0) as [a0 |]; [| discriminate].
  destruct (get_attr a0 "href") as [href |]; [| discriminate].
  destruct (index (Py.split_on "&"%char href) 2) as [part |] eqn:Hp;
    [| discriminate].
  destruct (index (find_all "td" tr) 5) as [td5 |]; [| discriminate].
  destruct (index (find_all "td" tr) 6) as [td6 |]; [| discriminate].
  destruct (index (find_all "td" tr) 7) as [td7 |]; [| discriminate].
  intros H. injection H as H. subst sc.
  change (has_char "&"%char (Py.drop 7 part) = false).
  apply has_char_drop.
  pose proof (split_on_pieces "&"%char href) as Hf.
  rewrite Forall_forall in Hf. apply Hf.
  unfold index in Hp.
  destruct (nth_error (Py.split_on "&"%char href) 2) as [x |] eqn:Hn;
    [| discriminate Hp].
  injection Hp as Hp. subst x. apply nth_error_In with (n := 2). exact Hn.
Qed.

(* ===================================================================== *)
(** ** Types, short tables and the columns of the callers                 *)
(* ===================================================================== *)

Section Labels.

Variable R : table -> table -> Prop.
Variable E : event -> Prop.
Hypothesis R_refl : forall t, R t t.
Hypothesis R_trans : forall a b c, R a b -> R b c -> R a c.
Variable get_page : string -> res node.
Variables IP ext server_type : string.
Hypothesis E_fetch : forall url, E (EvFetch url).
Hypothesis post_tr :
  forall counter tr, post R E (sync_tr IP server_type counter tr).

(** As [post_sync_pages], for the one type the loop is run with. *)
Lemma post_sync_pages_of_type fuel counter :
  post R E (sync_pages get_page fuel IP ext server_type counter).
Proof.
  revert counter. induction fuel as [| fuel IH]; intros counter; cbn [sync_pages].
  - apply post_out_of_fuel; assumption.
  - apply post_bind; [assumption | |].
    + unfold fetch. apply post_bind; [assumption | |].
      * apply post_emit; [assumption |]. apply E_fetch.
      * intros _. apply post_eval; assumption.
    + intros pg. apply post_bind; [assumption | apply post_eval; assumption |].
      intros trs. apply post_bind; [assumption | |].
      * apply post_for_each; [assumption .. |]. intros tr _. apply post_tr.
      * intros _. destruct (negb (length trs =? 0)%nat).
        -- apply IH.
        -- apply post_ret; assumption.
Qed.

End Labels.

Lemma server_type_of_labelled ext : In (server_type_of ext) server_types.
Proof.
  unfold server_type_of, server_types.
  destruct (String.eqb ext "pub"); [left; reflexivity |].
  destruct (String.eqb ext "priv"); [right; left; reflexivity |].
  right; right; left; reflexivity.
Qed.

Lemma keeps_typed_upsert e t :
  In (en_type e) server_types -> keeps_typed t (upsert_table e t).
Proof.
  intros He Ht. unfold upsert_table, typed in *.
  destruct (has_key (en_ip e) t).
  - unfold update_where. apply Forall_map.
    apply Forall_impl with (2 := Ht). intros r Hr.
    destruct (matches (en_ip e) r); [exact He | exact Hr].
  - apply Forall_app. split; [exact Ht |]. constructor; [exact He | constructor].
Qed.

(** X22. Whatever the pages say, a sync writes [Public], [Private] or [Secret]
    as the type and nothing else; a table whose rows all have one of
    these types keeps that property. *)
Theorem sync_writes_only_the_three_types
    (get_page : string -> res node) (fuel : nat) (IP : string) (t : table) :
  Forall labelled (evs (IPDB_to_localDB get_page fuel IP t)) /\
  (typed t -> typed (tbl (IPDB_to_localDB get_page fuel IP t))).
Proof.
  assert (Hpost : post keeps_typed labelled (IPDB_to_localDB get_page fuel IP)).
  { assert (Hrefl : forall t0, keeps_typed t0 t0) by (intros t0 H; exact H).
    assert (Htrans : forall a b c,
               keeps_typed a b -> keeps_typed b c -> keeps_typed a c)
      by (intros a b c Hab Hbc H; apply Hbc, Hab, H).
    unfold IPDB_to_localDB. apply post_bind; [assumption | |].
    - apply post_emit; [assumption | exact I].
    - intros _. apply post_bind; [assumption | |].
      + apply post_for_each; [assumption .. |]. intros ext _. unfold sync_ext.
        apply post_sync_pages_of_type; [assumption .. | intros url; exact I |].
        intros counter tr. apply post_sync_tr; [assumption |].
        intros sc _ _ t0. rewrite upsert_run. cbn [tbl evs]. split.
        * apply keeps_typed_upsert. apply server_type_of_labelled.
        * constructor; [exact I |]. constructor; [| constructor].
          cbn [labelled]. destruct (has_key (sc_ipAddress sc) t0);
            cbn [writes_type]; apply server_type_of_labelled.
      + intros _. apply post_emit; [assumption | exact I]. }
  destruct (Hpost t) as [Ht He]. split; [exact He | exact Ht].
Qed.

(** X23. A table with four rows or fewer gives no row to read, which ends the
    category; with five rows or more there is at least one. *)
Theorem candidate_rows_empty_iff_short (rows : list node) :
  candidate_rows rows = [] <-> length rows <= 4.
Proof.
  unfold candidate_rows, Py.upto_last, Py.from_1.
  destruct rows as [| a [| b [| c [| d [| e rows]]]]];
    try (split; [intros _; cbn [length]; lia | reflexivity]).
  split.
  - cbn [Py.every_second tl]. destruct rows as [| f rows]; [discriminate |].
    destruct (Py.every_second rows); discriminate.
  - cbn [length]. lia.
Qed.

Lemma get_column_caller c r r' :
  In c caller_columns -> mutableFields r = mutableFields r' ->
  get_column c r = get_column c r'.
Proof.
  intros Hc Hm. unfold mutableFields in Hm. injection Hm as H1 H2 H3 H4 H5 H6 H7 H8.
  unfold caller_columns in Hc.
  repeat (destruct Hc as [Hc | Hc];
          [subst c; cbv [get_column String.eqb Ascii.eqb Bool.eqb]; congruence |]).
  destruct Hc.
Qed.

Lemma same_frame_first_match IP t t' r rest :
  same_frame t t' ->
  filter (matches IP) t = r :: rest ->
  exists r' rest', filter (matches IP) t' = r' :: rest' /\
                   mutableFields r' = mutableFields r.
Proof.
  revert t'. induction t as [| x t IH]; intros t' Hf Hm; [discriminate Hm |].
  destruct (Hf 0 x eq_refl) as [y [Hy [Hkey Hmut]]].
  destruct t' as [| y' t']; [discriminate Hy |].
  cbn [nth_error] in Hy. injection Hy as Hy. subst y'.
  assert (Hf' : same_frame t t').
  { intros i r0 Hi. apply (Hf (S i) r0 Hi). }
  cbn [filter] in *. unfold matches at 1. unfold matches at 1 in Hm.
  rewrite Hkey. destruct (String.eqb (ipAddress x) IP).
  - injection Hm as Hx _. subst x. exists y. eexists. split; [reflexivity | exact Hmut].
  - apply IH; assumption.
Qed.

(** X24. What [get_IP_attributes] reads in a caller-owned column of a server
    that is in the table is the same before and after any sync. *)
Theorem caller_columns_read_the_same_after_sync
    (get_page : string -> res node) (fuel : nat) (F IP c : string) (t : table) :
  In c caller_columns ->
  has_key IP t = true ->
  out (get_IP_attributes IP [c] (tbl (IPDB_to_localDB get_page fuel F t)))
  = out (get_IP_attributes IP [c] t).
Proof.
  intros Hc Hk.
  assert (Hall : forall a, In a [c] -> In a VALID_COLUMN_NAMES).
  { intros a [Ha | []]. subst a. unfold caller_columns in Hc.
    unfold VALID_COLUMN_NAMES. cbn [In] in *. tauto. }
  assert (Hne : [c] <> []) by discriminate.
  assert (Hmax : length [c] <= SQLITE_MAX_COLUMN)
    by (unfold SQLITE_MAX_COLUMN; cbn [length]; lia).
  rewrite !(get_IP_attributes_checked IP [c] _ Hne Hmax Hall).
  pose proof (filter_matches_has_key IP t) as Hf. rewrite Hk in Hf.
  destruct (filter (matches IP) t) as [| r rest] eqn:Hm; [discriminate Hf |].
  destruct (post_frame_IPDB get_page fuel F t) as [Hframe _].
  destruct (same_frame_first_match IP t _ r rest Hframe Hm)
    as [r' [rest' [Hm' Hmut]]].
  rewrite Hm'. cbn [out map].
  rewrite (get_column_caller c r' r Hc Hmut). reflexivity.
Qed.

(* ===================================================================== *)
(** ** Concrete runs of the accessors and of failing syncs                *)
(* ===================================================================== *)


Lemma get_returns_requested_columns_witness :
  get_IP_attributes "10.0.0.2" ["type"; "name"; "type"]
    (Fixture.stocked ++
     new_server "10.0.0.2" "Beta" "Public" "0" false false :: []) =
  Run (Ok (RetTuple [Text "Public"; Text "Beta"; Text "Public"]))
      (Fixture.stocked ++
       new_server "10.0.0.2" "Beta" "Public" "0" false false :: [])
      [EvConnect; EvExecute (SelectColumns ["type"; "name"; "type"] "10.0.0.2");
       EvClose].
Proof.
  apply (get_returns_requested_columns
           "10.0.0.2" ["type"; "name"; "type"] Fixture.stocked []
           (new_server "10.0.0.2" "Beta" "Public" "0" false false)).
  - discriminate.
  - unfold SQLITE_MAX_COLUMN. cbn [length]. lia.
  - intros a [H | [H | [H | []]]]; subst a; apply mem_In; reflexivity.
  - reflexivity.
  - reflexivity.
Defined.

Lemma get_tuple_is_sound_witness :
  length [Text "3"; Text "http"] = length ["cpu"; "running"] /\
  has_key "10.0.0.1" Fixture.stocked = true /\
  ["cpu"; "running"] <> [] /\
  forall a, In a ["cpu"; "running"] -> In a VALID_COLUMN_NAMES.
Proof.
  apply (get_tuple_is_sound "10.0.0.1" ["cpu"; "running"] Fixture.stocked
           [Text "3"; Text "http"]).
  reflexivity.
Defined.

Lemma set_keeps_keys_unique_witness :
  unique_keys (tbl (set_IP_attributes "10.0.0.1" ["ipAddress"; "cpu"]
                      [Py.Str "10.0.0.7"; Py.Int 8] Scenario.pair)).
Proof.
  apply (set_keeps_keys_unique "10.0.0.1" ["ipAddress"; "cpu"]
           [Py.Str "10.0.0.7"; Py.Int 8] Scenario.pair).
  apply distinct_NoDup. reflexivity.
Defined.

Lemma set_identifier_onto_existing_raises_witness :
  set_IP_attributes "10.0.0.1" ["ipAddress"] [Py.Str "10.0.0.2"] Scenario.pair =
  Run (Raised IntegrityError) Scenario.pair
      [EvConnect; EvExecute (UpdateColumns [("ipAddress", "10.0.0.2")] "10.0.0.1")].
Proof.
  apply (set_identifier_onto_existing_raises
           "10.0.0.1" (Py.Str "10.0.0.2") Scenario.pair).
  - reflexivity.
  - reflexivity.
  - discriminate.
  - reflexivity.
Defined.

(** X9 needs its last hypothesis: an identifier with the character of code
    0 can be in the table (the sync binds it as a parameter), but as the
    new value of [ipAddress] it is part of the statement text, which is
    refused before the primary key is looked at. *)
Example set_identifier_with_nul_is_refused :
  has_key "10.0.0.1" Scenario.pair_with_nul = true /\
  has_key (stored_text (Py.Str Scenario.nul_key)) Scenario.pair_with_nul = true /\
  set_IP_attributes "10.0.0.1" ["ipAddress"] [Py.Str Scenario.nul_key]
    Scenario.pair_with_nul
  = Run (Raised ProgrammingError) Scenario.pair_with_nul
        [EvConnect;
         EvExecute (UpdateColumns [("ipAddress", Scenario.nul_key)] "10.0.0.1")].
Proof. repeat split; vm_compute; reflexivity. Qed.


Lemma set_statement_is_whitelisted_and_quote_free_witness :
  exists assigns,
    UpdateColumns [("name", "OReilly")] "10.0.0.1"
      = UpdateColumns assigns "10.0.0.1" /\
    statements (evs (set_IP_attributes "10.0.0.1" ["name"] [Py.Str "O'Reilly"]
                       Fixture.stocked))
      = [UpdateColumns [("name", "OReilly")] "10.0.0.1"] /\
    forall c v, In (c, v) assigns ->
                In c VALID_COLUMN_NAMES /\ has_char "'"%char v = false.
Proof.
  apply (set_statement_is_whitelisted_and_quote_free
           "10.0.0.1" ["name"] [Py.Str "O'Reilly"] Fixture.stocked
           (UpdateColumns [("name", "OReilly")] "10.0.0.1")).
  left. reflexivity.
Defined.

Lemma inserted_row_reads_back_witness :
  statements (evs (sync_tr "none" "Public" 2 Fixture.beta Fixture.stocked)) =
    [SelectName "10.0.0.2";
     InsertServer "10.0.0.2" "Beta" "Public" "2" false false] /\
  tbl (sync_tr "none" "Public" 2 Fixture.beta Fixture.stocked)
    = Fixture.stocked ++
      [entry_row (entry_of {| sc_ipAddress := "10.0.0.2"; sc_name := "Beta";
                              sc_admin := false; sc_owned := false |}
                           "Public" 2)] /\
  out (get_IP_attributes "10.0.0.2" VALID_COLUMN_NAMES
         (tbl (sync_tr "none" "Public" 2 Fixture.beta Fixture.stocked)))
    = Ok (RetTuple [Text "10.0.0.2"; Text "Beta"; Text "Public"; Text "2";
                    Flag (Bound false); Text ""; Flag (Bound false);
                    Text ""; Text ""; Text ""; Text ""; Text ""; Text "";
                    Text "N/A"]).
Proof.
  apply (inserted_row_reads_back "none" "Public" 2 Fixture.beta
           {| sc_ipAddress := "10.0.0.2"; sc_name := "Beta";
              sc_admin := false; sc_owned := false |} Fixture.stocked);
    reflexivity.
Defined.

Lemma pagination_without_empty_page_never_returns_witness :
  out (sync_ext Scenario.endless 4 "none" "pub" []) = OutOfFuel /\
  fetches (evs (sync_ext Scenario.endless 4 "none" "pub" [])) = page_urls "pub" 4.
Proof.
  apply (pagination_without_empty_page_never_returns
           Scenario.endless "none" "pub" 4 []).
  intros n k _. exists (Fixture.plain_page [Fixture.alpha]), [Fixture.alpha].
  split; [reflexivity |]. split; [| discriminate].
  split; [reflexivity |].
  intros tr [H | []]. subst tr. eexists. reflexivity.
Defined.

Lemma failing_page_aborts_sync_witness :
  out (IPDB_to_localDB Scenario.broken 3 "none" []) = Raised IndexError /\
  fetches (evs (IPDB_to_localDB Scenario.broken 3 "none" [])) = page_urls "pub" 2 /\
  ~ In EvClose (evs (IPDB_to_localDB Scenario.broken 3 "none" [])).
Proof.
  apply (failing_page_aborts_sync Scenario.broken "none" 1 3 IndexError []).
  - intros k Hk. assert (k = 0) by lia. subst k.
    exists (Fixture.plain_page [Fixture.alpha; Fixture.beta]),
           [Fixture.alpha; Fixture.beta].
    split; [reflexivity |]. split; [| discriminate].
    split; [reflexivity |].
    intros tr [H | [H | []]]; subst tr; eexists; reflexivity.
  - right. exists (Tag "[document]" [] [Fixture.empty_table]).
    split; reflexivity.
  - lia.
Defined.

Lemma unreadable_row_keeps_earlier_rows_witness :
  sync_pages Scenario.damaged 3 "none" "pub" "Public" 0 [] =
  Run (Raised IndexError)
      (tbl (for_each [Fixture.alpha] (sync_tr "none" "Public" 0) []))
      (EvFetch (page_url "pub" 0)
       :: evs (for_each [Fixture.alpha] (sync_tr "none" "Public" 0) [])).
Proof.
  apply (unreadable_row_keeps_earlier_rows
           Scenario.damaged "none" "pub" "Public" 2 0
           (Fixture.plain_page [Fixture.alpha; Scenario.bad_tr; Fixture.beta])
           [Fixture.alpha] Scenario.bad_tr [Fixture.beta] IndexError []).
  - reflexivity.
  - reflexivity.
  - intros tr [H | []]. subst tr. eexists. reflexivity.
  - reflexivity.
Defined.

Lemma sync_of_finite_listing_returns_witness :
  out (IPDB_to_localDB Fixture.site 5 "none" []) = Ok tt /\
  fetches (evs (IPDB_to_localDB Fixture.site 5 "none" []))
    = page_urls "pub" 2 ++ page_urls "priv" 1 ++ page_urls "sec" 1 /\
  exists l, evs (IPDB_to_localDB Fixture.site 5 "none" [])
            = EvConnect :: l ++ [EvClose].
Proof.
  apply (sync_of_finite_listing_returns Fixture.site "none"
           Scenario.site_pages 5 []).
  intros ext [H | [H | [H | []]]]; subst ext.
  - split; [| split; [| cbn; lia]].
    + intros k Hk. assert (k = 0) by (cbn in Hk; lia). subst k.
      exists (Fixture.plain_page [Fixture.alpha; Fixture.beta]),
             [Fixture.alpha; Fixture.beta].
      split; [reflexivity |]. split; [| discriminate].
      split; [reflexivity |].
      intros tr [H | [H | []]]; subst tr; eexists; reflexivity.
    + exists (Fixture.plain_page []). split; reflexivity.
  - split; [| split; [| cbn; lia]].
    + intros k Hk. cbn in Hk. lia.
    + exists (Fixture.plain_page []). split; reflexivity.
  - split; [| split; [| cbn; lia]].
    + intros k Hk. cbn in Hk. lia.
    + exists (Fixture.plain_page []). split; reflexivity.
Defined.

Lemma last_listing_wins_witness :
  name (entry_row {| en_ip := "10.0.0.1"; en_name := "Alpha moved";
                     en_type := "Private"; en_page := "0";
                     en_admin := false; en_owned := true |}) = "Alpha moved" /\
  type (entry_row {| en_ip := "10.0.0.1"; en_name := "Alpha moved";
                     en_type := "Private"; en_page := "0";
                     en_admin := false; en_owned := true |}) = "Private" /\
  page (entry_row {| en_ip := "10.0.0.1"; en_name := "Alpha moved";
                     en_type := "Private"; en_page := "0";
                     en_admin := false; en_owned := true |}) = "0" /\
  admin (entry_row {| en_ip := "10.0.0.1"; en_name := "Alpha moved";
                      en_type := "Private"; en_page := "0";
                      en_admin := false; en_owned := true |}) = Bound false /\
  owned (entry_row {| en_ip := "10.0.0.1"; en_name := "Alpha moved";
                      en_type := "Private"; en_page := "0";
                      en_admin := false; en_owned := true |}) = Bound true.
Proof.
  apply (last_listing_wins Scenario.twice 3 "none" []
           [ {| en_ip := "10.0.0.1"; en_name := "Alpha Node";
                en_type := "Public"; en_page := "0";
                en_admin := true; en_owned := true |} ]
           {| en_ip := "10.0.0.1"; en_name := "Alpha moved";
              en_type := "Private"; en_page := "0";
              en_admin := false; en_owned := true |}
           []).
  - reflexivity.
  - intros e' [].
  - left. reflexivity.
  - reflexivity.
Defined.

Lemma filtered_sync_adds_at_most_one_row_witness :
  length (tbl (IPDB_to_localDB Fixture.site 5 "10.0.0.2" Fixture.stocked))
    <= S (length Fixture.stocked) /\
  length Fixture.stocked
    <= length (tbl (IPDB_to_localDB Fixture.site 5 "10.0.0.2" Fixture.stocked)) /\
  (has_key "10.0.0.2" Fixture.stocked = true ->
   length (tbl (IPDB_to_localDB Fixture.site 5 "10.0.0.2" Fixture.stocked))
     = length Fixture.stocked).
Proof.
  apply (filtered_sync_adds_at_most_one_row Fixture.site 5 "10.0.0.2"
           Fixture.stocked).
  discriminate.
Defined.

Lemma scraped_name_is_normalised_witness :
  (exists ws, Forall word ws /\ "Alpha Node" = Py.join " " ws) /\
  Py.join " " (Py.split_ws "Alpha Node") = "Alpha Node".
Proof.
  apply (scraped_name_is_normalised Fixture.alpha Fixture.alpha_scraped).
  reflexivity.
Defined.

Lemma scraped_identifier_has_no_ampersand_witness :
  has_char "&"%char "10.0.0.1" = false.
Proof.
  apply (scraped_identifier_has_no_ampersand Fixture.alpha Fixture.alpha_scraped).
  reflexivity.
Defined.

Lemma caller_columns_read_the_same_after_sync_witness :
  out (get_IP_attributes "10.0.0.1" ["running"]
         (tbl (IPDB_to_localDB Fixture.site 5 "none" Fixture.stocked)))
  = out (get_IP_attributes "10.0.0.1" ["running"] Fixture.stocked).
Proof.
  apply (caller_columns_read_the_same_after_sync
           Fixture.site 5 "none" "10.0.0.1" "running" Fixture.stocked).
  - apply mem_In. reflexivity.
  - reflexivity.
Defined.
